(** * raftkit: the cluster facade, the remote peer, the daemon and the
      snapshot codec, embedded from the Go sources.

    - [Cluster]  : src/cluster.go
    - [Remote]   : src/internal/membership/remote.go
    - [Daemon]   : src/internal/daemon (the daemon part of types_test.go)
    - [Disk]     : src/internal/storage/disk/snap_codec.go

    Go values are modelled as the code has them: uint64 as [Z], byte
    slices as [list byte], interfaces as records of what their methods
    return, [error] results as a sum with the value. *)

From stdpp Require Import base gmap strings list.
From Stdlib Require Import ZArith Lia.
From Stdlib.Strings Require Import Byte Ascii.

Local Open Scope Z_scope.

(** ** Errors and results *)

(** The error values the modelled code creates or passes on. *)
Inductive error : Type :=
| ErrNotJoined                 (* raft: node is not yet part of a raft cluster *)
| ErrUnknownMember (id : Z)    (* raft: unknown member %x *)
| ErrAlreadyRemoved (id : Z)   (* raft: member %x already removed *)
| ErrRmLeader (id : Z)         (* raft: member %x is the leader and cannot be removed *)
| ErrNoLeader                  (* daemon.ErrNoLeader *)
| errNotLeader                 (* raft: operation not permitted, node is not the leader *)
| ErrQuorumLost                (* raft: quorum lost and the cluster unavailable *)
| ErrAddressInUse (id : Z)     (* raft: address used by member %x *)
| ErrIdInUse (id : Z)          (* raft: id used by member %x *)
| ErrNoLongestActive           (* raft: failed to find longest active member *)
| ErrStopped                   (* daemon.ErrStopped *)
| ErrOverloaded (id : Z)       (* Cluster member %x, buffer is full (overloaded network) *)
| ErrCanceled                  (* context.Canceled *)
| ErrSnapIndex (idx applied : Z) (* raft: snapshot index [%d] should > progress.appliedIndex *)
| ErrEmptySnapshot
| ErrSnapshotFormat
| ErrCRCMismatch
| ErrNoSnapshot
| ErrNotExist                  (* os.Open on a missing file *)
| ErrNegativeOffset            (* ReadAt with a negative offset *)
| EOF                          (* io.EOF *)
| ErrExternal (msg : string).  (* an error of a collaborator, passed on verbatim *)

(** A Go call that returns [(value, error)], or panics. *)
Inductive res (A : Type) : Type :=
| Ok (a : A)
| Err (e : error)
| Panic.
Arguments Ok {A} a.
Arguments Err {A} e.
Arguments Panic {A}.

(** ** raftpb: members *)

Inductive MemberType : Type :=
| VoterMember          (* RemoteMember in cluster.go *)
| RemovedMember
| StagingMember
| LearnerMember
| LocalMember
| LocalLearnerMember.

Definition MemberType_eqb (a b : MemberType) : bool :=
  match a, b with
  | VoterMember, VoterMember | RemovedMember, RemovedMember
  | StagingMember, StagingMember | LearnerMember, LearnerMember
  | LocalMember, LocalMember | LocalLearnerMember, LocalLearnerMember => true
  | _, _ => false
  end.

(** raftpb.Member, the serialisable part of a member. *)
Record RawMember : Type := mkRaw {
  raw_ID : Z;
  raw_Address : string;
  raw_Type : MemberType
}.

(** time.Time as the offset from the zero instant (January 1, year 1):
    [IsZero] holds of the zero value only, [Before] is the order of
    instants. *)
Module Time.
Definition t : Type := Z.
Definition zero : t := 0.
Definition IsZero (x : t) : bool := x =? 0.
Definition Before (x y : t) : bool := x <? y.
End Time.

(** The Member interface, as what its methods return. *)
Record Member : Type := mkMember {
  ID : Z;
  Address : string;
  MType : MemberType;          (* Type() *)
  ActiveSince : Time.t;
  IsActive : bool
}.

Definition Raw (m : Member) : RawMember :=
  mkRaw (ID m) (Address m) (MType m).

(** raft.Status, the fields the code reads. [Progress] is nil on a node
    that is not the leader; it maps a member id to its Match index. *)
Record Status : Type := mkStatus {
  st_ID : Z;
  st_Lead : Z;
  st_Progress : option (gmap Z Z)
}.

Definition None_id : Z := 0.

(** rs.Progress[id].Match: a missing key reads as the zero Progress. *)
Definition Match (p : gmap Z Z) (id : Z) : Z := default 0 (p !! id).

Inductive ConfChangeType : Type :=
| ConfChangeAddNode
| ConfChangeRemoveNode
| ConfChangeUpdateNode
| ConfChangeAddLearnerNode.

(** ** src/cluster.go *)
Module Cluster.

(** The daemon as the facade sees it: whether it is started, the status
    of the raft node, what ProposeConfChange answers, and the conf
    changes handed to it so far. *)
Record daemon : Type := mkDaemon {
  d_started : bool;
  d_status : Status;
  d_propose : RawMember -> ConfChangeType -> option error;
  d_proposed : list (RawMember * ConfChangeType)
}.

Record cluster : Type := mkCluster {
  c_pool : list Member;          (* pool.Members(), in the order returned *)
  c_daemon : daemon;
  c_disableForwarding : bool
}.

Definition zeroStatus : Status := mkStatus 0 0 None.

(** daemon.Status: the zero Status and ErrStopped unless started. *)
Definition daemon_Status (d : daemon) : Status * option error :=
  if d_started d then (d_status d, None) else (zeroStatus, Some ErrStopped).

(** daemon.ProposeConfChange: ErrStopped unless started; otherwise the
    change is handed to the raft node. *)
Definition daemon_ProposeConfChange (d : daemon) (m : RawMember)
    (t : ConfChangeType) : res unit * daemon :=
  if d_started d then
    let d' := mkDaemon (d_started d) (d_status d) (d_propose d)
                       (d_proposed d ++ [(m, t)]) in
    match d_propose d m t with
    | Some e => (Err e, d')
    | None => (Ok tt, d')
    end
  else (Err ErrStopped, d).

(** Modelled from the spec: pool.Get, the pool being a mapping from id
    to member: the member of that id, if any. *)
Definition pool_Get (p : list Member) (id : Z) : option Member :=
  List.find (fun m => ID m =? id) p.

Definition GetMemebr (c : cluster) (id : Z) : option Member :=
  pool_Get (c_pool c) id.

Definition members (c : cluster) (cond : Member -> bool) : list Member :=
  List.filter cond (c_pool c).

Definition Members (c : cluster) : list Member :=
  members c (fun m => negb (MemberType_eqb (MType m) RemovedMember)).

Definition RemovedMembers (c : cluster) : list Member :=
  members c (fun m => MemberType_eqb (MType m) RemovedMember).

Fixpoint AddressInUse_loop (ms : list Member) (addr : string) : Z :=
  match ms with
  | [] => 0
  | m :: ms' => if String.eqb (Address m) addr then ID m
                else AddressInUse_loop ms' addr
  end.

Definition AddressInUse (c : cluster) (addr : string) : Z :=
  AddressInUse_loop (Members c) addr.

(** The loop of LongestActive: the state is the pair of locals
    [(longest, longestTime)]. [longestTime] is assigned in the last
    branch only. *)
Definition LongestActive_step (st : option Member * Time.t) (m : Member)
    : option Member * Time.t :=
  let '(longest, longestTime) := st in
  let since := ActiveSince m in
  if Time.IsZero since || MemberType_eqb (MType m) LocalMember then st
  else match longest with
       | None => (Some m, longestTime)
       | Some _ =>
           if Time.Before since longestTime then (Some m, since)
           else st
       end.

Definition LongestActive (c : cluster) : res Member :=
  match fst (fold_left LongestActive_step (Members c) (None, Time.zero)) with
  | None => Err ErrNoLongestActive
  | Some m => Ok m
  end.

Definition IsAvailable (c : cluster) : bool :=
  let q := (length (Members c) / 2 + 1)%nat in
  let n := length (members c IsActive) in
  (q <=? n)%nat.

(** m.Type() on the nil Member of a failed lookup panics. *)
Definition IsMemberRemoved (c : cluster) (id : Z) : res bool :=
  match GetMemebr c id with
  | Some m => Ok (MemberType_eqb (MType m) RemovedMember)
  | None => Panic
  end.

Definition IsMember (c : cluster) (id : Z) : bool :=
  match pool_Get (c_pool c) id with Some _ => true | None => false end.

Definition Whoami (c : cluster) : Z := st_ID (fst (daemon_Status (c_daemon c))).
Definition Leader (c : cluster) : Z := st_Lead (fst (daemon_Status (c_daemon c))).

(** The loop of [precondition]: the first error (or panic) ends it. *)
Fixpoint precondition (c : cluster) (fns : list (cluster -> res unit)) : res unit :=
  match fns with
  | [] => Ok tt
  | fn :: fns' =>
      match fn c with
      | Ok _ => precondition c fns'
      | Err e => Err e
      | Panic => Panic
      end
  end.

Definition joined : cluster -> res unit :=
  fun c => if Whoami c =? 0 then Err ErrNotJoined else Ok tt.

Definition available : cluster -> res unit :=
  fun c => if negb (IsAvailable c) then Err ErrQuorumLost else Ok tt.

Definition notMember (id : Z) : cluster -> res unit :=
  fun c => if negb (IsMember c id) then Err (ErrUnknownMember id) else Ok tt.

Definition memberRemoved (id : Z) : cluster -> res unit :=
  fun c => match IsMemberRemoved c id with
           | Ok true => Err (ErrAlreadyRemoved id)
           | Ok false => Ok tt
           | Err e => Err e
           | Panic => Panic
           end.

Definition addressInUse (mid : Z) (addr : string) : cluster -> res unit :=
  fun c => let id := AddressInUse c addr in
           if negb (id =? 0) && negb (id =? mid) then Err (ErrAddressInUse id)
           else Ok tt.

Definition notLeader : cluster -> res unit :=
  fun c => if negb (Whoami c =? Leader c) then Err errNotLeader else Ok tt.

Definition rmLeader (id : Z) : cluster -> res unit :=
  fun c => if id =? Leader c then Err (ErrRmLeader id) else Ok tt.

Definition idInUse (id : Z) : cluster -> res unit :=
  fun c => match GetMemebr c id with
           | Some _ => Err (ErrIdInUse id)
           | None => Ok tt
           end.

Definition noLeader : cluster -> res unit :=
  fun c => if Leader c =? None_id then Err ErrNoLeader else Ok tt.

Definition disableForwarding : cluster -> res unit :=
  fun c => if negb (Leader c =? Whoami c) && c_disableForwarding c
           then Err errNotLeader else Ok tt.

(** The arguments of [c.precondition] in RemoveMember. *)
Definition RemoveMember_chain (id : Z) : list (cluster -> res unit) :=
  [ joined; notMember id; memberRemoved id; rmLeader id;
    noLeader; disableForwarding; available ].

Definition with_daemon (c : cluster) (d : daemon) : cluster :=
  mkCluster (c_pool c) d (c_disableForwarding c).

Definition RemoveMember (c : cluster) (id : Z) : res unit * cluster :=
  match precondition c (RemoveMember_chain id) with
  | Err e => (Err e, c)
  | Panic => (Panic, c)
  | Ok _ =>
      match GetMemebr c id with
      | None => (Panic, c)            (* mem.Raw() on a nil Member *)
      | Some mem =>
          let raw := mkRaw (raw_ID (Raw mem)) (raw_Address (Raw mem)) RemovedMember in
          let '(r, d') := daemon_ProposeConfChange (c_daemon c) raw ConfChangeRemoveNode in
          (r, with_daemon c d')
      end
  end.

(** The conf changes handed to the daemon so far. *)
Definition proposed (c : cluster) : list (RawMember * ConfChangeType) :=
  d_proposed (c_daemon c).

End Cluster.

(** ** etcd raftpb: messages, entries, snapshots (the fields the code reads) *)

Inductive MessageType : Type :=
| MsgHup | MsgBeat | MsgProp | MsgApp | MsgAppResp | MsgVote | MsgVoteResp
| MsgSnap | MsgHeartbeat | MsgHeartbeatResp | MsgUnreachable | MsgSnapStatus
| MsgCheckQuorum | MsgTransferLeader | MsgTimeoutNow | MsgReadIndex
| MsgReadIndexResp | MsgPreVote | MsgPreVoteResp.

Definition is_MsgSnap (t : MessageType) : bool :=
  match t with MsgSnap => true | _ => false end.

Record Message : Type := mkMessage {
  msg_Type : MessageType;
  msg_To : Z;
  msg_From : Z
}.

Inductive SnapshotStatus : Type := SnapshotFinish | SnapshotFailure.

(** ** src/internal/membership/remote.go *)
Module Remote.

(** A call on the [reporter] of the remote. *)
Inductive report_call : Type :=
| ReportUnreachable (id : Z)
| ReportSnapshot (id : Z) (status : SnapshotStatus).

(** The remote, as far as [Send] touches it: [ctx_err] is [r.ctx.Err()]
    (nil while the context is live), [msgc] the buffered channel with
    its capacity, [msgc_closed] whether [run] has closed it, [reported]
    the calls made on [r.r] so far. *)
Record remote : Type := mkRemote {
  id : Z;
  ctx_err : option error;
  msgc : list Message;
  msgc_cap : nat;
  msgc_closed : bool;
  reported : list report_call
}.

(** What the Go scheduler decides during one [Send]: whether another
    goroutine cancels the context between the first check and the
    [select], and which case [select] takes when both the send and
    [ctx.Done()] are ready. *)
Record sched : Type := mkSched {
  cancel_between : bool;
  pick_send : bool
}.

Definition with_reported (r : remote) (l : list report_call) : remote :=
  mkRemote (id r) (ctx_err r) (msgc r) (msgc_cap r) (msgc_closed r) l.

Definition with_ctx_err (r : remote) (e : option error) : remote :=
  mkRemote (id r) e (msgc r) (msgc_cap r) (msgc_closed r) (reported r).

Definition with_msgc (r : remote) (q : list Message) : remote :=
  mkRemote (id r) (ctx_err r) q (msgc_cap r) (msgc_closed r) (reported r).

(** The calls [report] makes for a message and the error of its send. *)
Definition report_calls (r : remote) (msg : Message) (err : option error)
    : list report_call :=
  match err, is_MsgSnap (msg_Type msg) with
  | None, true => [ReportSnapshot (id r) SnapshotFinish]
  | Some _, true => [ReportSnapshot (id r) SnapshotFailure]
  | Some _, false => [ReportUnreachable (id r)]
  | None, false => []
  end.

Definition report (r : remote) (msg : Message) (err : option error) : remote :=
  with_reported r (reported r ++ report_calls r msg err).

(** The body of [Send] up to its return value; the deferred function
    is applied in [Send]. A send on a closed channel panics. *)
Definition Send_body (s : sched) (r : remote) (msg : Message)
    : res unit * remote :=
  match ctx_err r with
  | Some e => (Err e, r)
  | None =>
      let r := if cancel_between s then with_ctx_err r (Some ErrCanceled) else r in
      let send_ready := msgc_closed r || (length (msgc r) <? msgc_cap r)%nat in
      let do_send :=
        if msgc_closed r then (Panic, r)
        else (Ok tt, with_msgc r (msgc r ++ [msg])) in
      match send_ready, ctx_err r with
      | true, None => do_send
      | true, Some e => if pick_send s then do_send else (Err e, r)
      | false, Some e => (Err e, r)
      | false, None => (Err (ErrOverloaded (id r)), r)
      end
  end.

Definition Send (s : sched) (r : remote) (msg : Message) : res unit * remote :=
  match Send_body s r msg with
  | (Err e, r') => (Err e, report r' msg (Some e))
  | other => other
  end.

(** [setStatus] and the status fields are not needed by [Send]. *)

End Remote.

Record ConfState : Type := mkConfState {
  Voters : list Z;
  Learners : list Z;
  VotersOutgoing : list Z;
  LearnersNext : list Z;
  AutoLeave : bool
}.

Record SnapshotMetadata : Type := mkMetadata {
  md_ConfState : ConfState;
  md_Index : Z;
  md_Term : Z
}.

(** etcd raftpb.Snapshot. *)
Record RaftSnapshot : Type := mkRaftSnapshot {
  snap_Data : list byte;
  snap_Metadata : SnapshotMetadata
}.

Definition emptyConfState : ConfState := mkConfState [] [] [] [] false.
Definition emptySnapshot : RaftSnapshot :=
  mkRaftSnapshot [] (mkMetadata emptyConfState 0 0).

(** raft.IsEmptySnap *)
Definition IsEmptySnap (sp : RaftSnapshot) : bool :=
  md_Index (snap_Metadata sp) =? 0.

Inductive EntryType : Type := EntryNormal | EntryConfChange | EntryConfChangeV2.

Record Entry : Type := mkEntry {
  ent_Type : EntryType;
  ent_Index : Z;
  ent_Term : Z;
  ent_Data : list byte
}.

Record ConfChange : Type := mkConfChange {
  cc_ID : Z;
  cc_Type : ConfChangeType;
  cc_NodeID : Z;
  cc_Context : list byte
}.

(** An io.Reader: the bytes it yields, then io.EOF ([None]) or an error. *)
Record Reader : Type := mkReader {
  r_bytes : list byte;
  r_err : option error
}.

(** uint64 arithmetic wraps around. *)
Definition wrap64 (z : Z) : Z := z mod 2 ^ 64.

(** float64, for the one comparison the code makes:
    [float64(a) < float64(b) * 0.9]. All values are non-negative and far
    from overflow, so a float64 is kept as an integer scaled by 2^53. *)
Module Float64.

(** Round a non-negative integer to 53 significant bits, ties to even. *)
Definition round53 (n : Z) : Z :=
  if n <? 2 ^ 53 then n
  else
    let k := Z.log2 n - 52 in
    let q := Z.shiftr n k in
    let r := Z.land n (Z.ones k) in
    let half := Z.shiftl 1 (k - 1) in
    if (half <? r) || ((r =? half) && Z.odd q)
    then Z.shiftl (q + 1) k
    else Z.shiftl q k.

(** float64(x) of a uint64. *)
Definition of_uint64 (x : Z) : Z := round53 x.

(** The float64 nearest to 0.9 is [c09 / 2^53] (0x3FECCCCCCCCCCCCD). *)
Definition c09 : Z := 8106479329266893.

(** [float64(a) < float64(b) * 0.9] *)
Definition lt_mul09 (a b : Z) : bool :=
  of_uint64 a * 2 ^ 53 <? round53 (of_uint64 b * c09).

End Float64.

(** ** src/internal/daemon (daemon.go) *)
Module Daemon.

(** storage.SnapshotFile, as the daemon builds and reads it. *)
Record SnapshotFile : Type := mkSnapshotFile {
  sf_Snap : RaftSnapshot;
  sf_Pool : list RawMember;
  sf_Data : Reader
}.

(** The collaborators of the daemon (FSM, raft.MemoryStorage cache,
    storage, snapshotter, pool, raft node, msgbus) act on a world [W];
    each method is what the call returns and the world after it. Calls
    are taken to return. *)
Class Collaborators (W : Type) : Type := {
  fsm_Snapshot : W -> (Reader * option error) * W;
  fsm_Restore : Reader -> W -> option error * W;
  fsm_Apply : list byte -> W -> W;
  cache_Snapshot : W -> RaftSnapshot * option error;
  cache_CreateSnapshot : Z -> option ConfState -> W ->
                         (RaftSnapshot * option error) * W;
  cache_Compact : Z -> W -> option error * W;
  cache_ApplySnapshot : RaftSnapshot -> W -> option error * W;
  snapshotter_Write : SnapshotFile -> W -> option error * W;
  snapshotter_Read : RaftSnapshot -> W -> (SnapshotFile * option error) * W;
  storage_SaveSnapshot : RaftSnapshot -> W -> option error * W;
  pool_Snapshot : W -> list RawMember;
  pool_Restore : list RawMember -> W -> W;
  pool_Add : RawMember -> W -> option error * W;
  pool_Update : RawMember -> W -> option error * W;
  pool_Remove_later : RawMember -> W -> W;   (* the goroutine of RemoveNode *)
  node_ApplyConfChange : ConfChange -> W -> option ConfState * W;
  msgbus_Broadcast : Z -> option error -> W -> W;
  Replicate_Unmarshal : list byte -> res (Z * list byte);  (* CID, Data *)
  ConfChange_Unmarshal : list byte -> res ConfChange;
  Member_Unmarshal : list byte -> res RawMember
}.

Record daemon (W : Type) : Type := mkDaemon {
  appliedIndex : Z;
  snapIndex : Z;
  cState : option ConfState;
  cfg_SnapInterval : Z;
  world : W
}.
Arguments mkDaemon {W}.
Arguments appliedIndex {W}.
Arguments snapIndex {W}.
Arguments cState {W}.
Arguments cfg_SnapInterval {W}.
Arguments world {W}.

Section daemon_ops.
Context {W : Type} `{!Collaborators W}.

(** New: both counters start at zero. *)
Definition New (interval : Z) (w : W) : daemon W :=
  mkDaemon 0 0 None interval w.

Definition set_world (d : daemon W) (w : W) : daemon W :=
  mkDaemon (appliedIndex d) (snapIndex d) (cState d) (cfg_SnapInterval d) w.

Definition set_appliedIndex (d : daemon W) (i : Z) : daemon W :=
  mkDaemon i (snapIndex d) (cState d) (cfg_SnapInterval d) (world d).

Definition set_snapIndex (d : daemon W) (i : Z) : daemon W :=
  mkDaemon (appliedIndex d) i (cState d) (cfg_SnapInterval d) (world d).

(** confState: store [cs] when it is not nil, return the stored one. *)
Definition confState (cs : option ConfState) (d : daemon W)
    : option ConfState * daemon W :=
  match cs with
  | Some _ =>
      (cs, mkDaemon (appliedIndex d) (snapIndex d) cs (cfg_SnapInterval d) (world d))
  | None => (cState d, d)
  end.

(** CreateSnapshot. The two counters are read once, at the start. *)
Definition CreateSnapshot (d : daemon W)
    : (RaftSnapshot * option error) * daemon W :=
  let appliedIndex0 := appliedIndex d in
  let snapIndex0 := snapIndex d in
  if appliedIndex0 =? snapIndex0 then
    (* up to date just return the latest snap to load it from disk. *)
    (cache_Snapshot (world d), d)
  else
    let '((r, err), w) := fsm_Snapshot (world d) in
    let d := set_world d w in
    match err with
    | Some e => ((emptySnapshot, Some e), d)
    | None =>
        let '(cs, d) := confState None d in
        let '((snap, err), w) := cache_CreateSnapshot appliedIndex0 cs (world d) in
        let d := set_world d w in
        match err with
        | Some e => ((snap, Some e), d)
        | None =>
            let sf := mkSnapshotFile snap (pool_Snapshot (world d)) r in
            let '(err, w) := snapshotter_Write sf (world d) in
            let d := set_world d w in
            match err with
            | Some e => ((snap, Some e), d)
            | None =>
                let '(err, w) := storage_SaveSnapshot snap (world d) in
                let d := set_world d w in
                match err with
                | Some e => ((snap, Some e), d)
                | None =>
                    let compactIndex :=
                      if cfg_SnapInterval d <? appliedIndex0
                      then appliedIndex0 - cfg_SnapInterval d
                      else 1 in
                    let '(err, w) := cache_Compact compactIndex (world d) in
                    let d := set_world d w in
                    match err with
                    | Some e => ((snap, Some e), d)
                    | None => ((snap, None), set_snapIndex d appliedIndex0)
                    end
                end
            end
        end
    end.

Definition publishSnapshotFile (sf : SnapshotFile) (d : daemon W)
    : option error * daemon W :=
  let snap := sf_Snap sf in
  let '(err, w) := cache_ApplySnapshot (sf_Snap sf) (world d) in
  let d := set_world d w in
  match err with
  | Some e => (Some e, d)
  | None =>
      let d := set_world d (pool_Restore (sf_Pool sf) (world d)) in
      let '(err, w) := fsm_Restore (sf_Data sf) (world d) in
      let d := set_world d w in
      match err with
      | Some e => (Some e, d)
      | None =>
          let '(_, d) := confState (Some (md_ConfState (snap_Metadata snap))) d in
          let d := set_snapIndex d (md_Index (snap_Metadata snap)) in
          let d := set_appliedIndex d (md_Index (snap_Metadata snap)) in
          (None, d)
      end
  end.

Definition publishSnapshot (snap : RaftSnapshot) (d : daemon W)
    : option error * daemon W :=
  if IsEmptySnap snap then (None, d)
  else if md_Index (snap_Metadata snap) <=? appliedIndex d then
    (Some (ErrSnapIndex (md_Index (snap_Metadata snap)) (appliedIndex d)), d)
  else
    let '(err, w) := storage_SaveSnapshot snap (world d) in
    let d := set_world d w in
    match err with
    | Some e => (Some e, d)
    | None =>
        let '((sf, err), w) := snapshotter_Read snap (world d) in
        let d := set_world d w in
        match err with
        | Some e => (Some e, d)
        | None => publishSnapshotFile sf d
        end
    end.

(** publishReplicate: the deferred broadcast carries the CID read so
    far (zero when Unmarshal failed) and the error. *)
Definition publishReplicate (ent : Entry) (d : daemon W) : daemon W :=
  match Replicate_Unmarshal (ent_Data ent) with
  | Ok (cid, data) =>
      let w := fsm_Apply data (world d) in
      set_world d (msgbus_Broadcast cid None w)
  | Err e => set_world d (msgbus_Broadcast 0 (Some e) (world d))
  | Panic => d
  end.

Definition publishConfChange (ent : Entry) (d : daemon W) : daemon W :=
  match ConfChange_Unmarshal (ent_Data ent) with
  | Err e => set_world d (msgbus_Broadcast 0 (Some e) (world d))
  | Panic => d
  | Ok cc =>
      if (length (cc_Context cc) =? 0)%nat then
        set_world d (msgbus_Broadcast (cc_ID cc) None (world d))
      else
        match Member_Unmarshal (cc_Context cc) with
        | Err e => set_world d (msgbus_Broadcast (cc_ID cc) (Some e) (world d))
        | Panic => d
        | Ok mem =>
            let '(err, w) :=
              match cc_Type cc with
              | ConfChangeAddNode | ConfChangeAddLearnerNode => pool_Add mem (world d)
              | ConfChangeUpdateNode => pool_Update mem (world d)
              | ConfChangeRemoveNode => (None, pool_Remove_later mem (world d))
              end in
            let '(cs, w) := node_ApplyConfChange cc w in
            let '(_, d) := confState cs (set_world d w) in
            set_world d (msgbus_Broadcast (cc_ID cc) err (world d))
        end
  end.

Definition is_EntryNormal (t : EntryType) : bool :=
  match t with EntryNormal => true | _ => false end.
Definition is_EntryConfChange (t : EntryType) : bool :=
  match t with EntryConfChange => true | _ => false end.

Definition publishCommitted_step (d : daemon W) (ent : Entry) : daemon W :=
  let d := if is_EntryNormal (ent_Type ent) && (0 <? length (ent_Data ent))%nat
           then publishReplicate ent d else d in
  let d := if is_EntryConfChange (ent_Type ent)
           then publishConfChange ent d else d in
  set_appliedIndex d (ent_Index ent).

Definition publishCommitted (ents : list Entry) (d : daemon W) : daemon W :=
  fold_left publishCommitted_step ents d.

(** One iteration of the loop of [snapshots]; the subtraction is on
    uint64. *)
Definition snapshots_tick (d : daemon W) : daemon W :=
  if wrap64 (appliedIndex d - snapIndex d) <=? cfg_SnapInterval d then d
  else snd (CreateSnapshot d).

(** The committed entries of one Ready, as the consensus primitive
    hands them out: indices strictly ascending, above the applied
    index. *)
Fixpoint ascending_from (i : Z) (ents : list Entry) : Prop :=
  match ents with
  | [] => True
  | e :: es => i < ent_Index e /\ ascending_from (ent_Index e) es
  end.

(** The operations that write the two counters, one step each. *)
Inductive step : daemon W -> daemon W -> Prop :=
| step_CreateSnapshot d :
    step d (snd (CreateSnapshot d))
| step_publishSnapshot d snap :
    step d (snd (publishSnapshot snap d))
| step_publishSnapshotFile d sf :
    step d (snd (publishSnapshotFile sf d))
| step_publishCommitted d ents :
    ascending_from (appliedIndex d) ents ->
    step d (publishCommitted ents d).

Inductive reachable : daemon W -> Prop :=
| reachable_New interval w : reachable (New interval w)
| reachable_step d d' : reachable d -> step d d' -> reachable d'.

End daemon_ops.

(** The locals of one pass of [promotions]. *)
Record scan : Type := mkScan {
  sc_promotions : list RawMember;
  sc_reachables : nat;
  sc_voters : nat
}.

Definition is_Voter (t : MemberType) : bool := MemberType_eqb t VoterMember.
Definition is_Staging (t : MemberType) : bool := MemberType_eqb t StagingMember.

(** The body of the loop over [d.pool.Members()]. *)
Definition promotions_step (rs_ID : Z) (progress : gmap Z Z)
    (inProgress : gset Z) (acc : scan) (mem : Member) : scan :=
  let raw := Raw mem in
  let voters := if is_Voter (raw_Type raw)
                then S (sc_voters acc) else sc_voters acc in
  let reachables := if IsActive mem && is_Voter (raw_Type raw)
                    then S (sc_reachables acc) else sc_reachables acc in
  let acc' := mkScan (sc_promotions acc) reachables voters in
  if negb (is_Staging (raw_Type raw)) then acc'
  else if bool_decide (raw_ID raw ∈ inProgress) then acc'
  else
    let leader := Match progress rs_ID in
    let staging := Match progress (raw_ID raw) in
    (* the staging Match not caught up with the leader yet. *)
    if Float64.lt_mul09 staging leader then acc'
    else
      mkScan (sc_promotions acc ++ [mkRaw (raw_ID raw) (raw_Address raw) VoterMember])
             reachables voters.

Definition promotions_scan (rs_ID : Z) (progress : gmap Z Z)
    (inProgress : gset Z) (membs : list Member) : scan :=
  fold_left (promotions_step rs_ID progress inProgress) membs (mkScan [] 0 0).

(** One pass of [promotions] (one receive on the channel): the members
    for which a goroutine proposing [ConfChangeAddNode] is started, in
    order, and [inProgress] after the pass. *)
Definition promotions_pass (rs : Status) (membs : list Member)
    (inProgress : gset Z) : list RawMember * gset Z :=
  match st_Progress rs with
  | None => ([], inProgress)        (* the current node is not the leader. *)
  | Some progress =>
      let sc := promotions_scan (st_ID rs) progress inProgress membs in
      (* quorum lost and the cluster unavailable, no new logs can be committed. *)
      if (sc_reachables sc <? sc_voters sc / 2 + 1)%nat then ([], inProgress)
      else (sc_promotions sc,
            inProgress ∪ list_to_set (map raw_ID (sc_promotions sc)))
  end.

End Daemon.

(** ** Bytes, encoding/binary and hash/crc64 *)

Definition byte_to_Z (b : byte) : Z := Z.of_N (Byte.to_N b).

(** byte(z): the low eight bits. *)
Definition byte_of_Z (z : Z) : byte :=
  default x00 (Byte.of_N (Z.to_N (z mod 256))).

(** binary.BigEndian.PutUint64 on a fresh slice of eight bytes. *)
Definition PutUint64 (v : Z) : list byte :=
  map (fun k => byte_of_Z (Z.shiftr v (8 * k))) [7; 6; 5; 4; 3; 2; 1; 0].

(** binary.BigEndian.Uint64 *)
Definition Uint64 (b : list byte) : Z :=
  fold_left (fun acc x => Z.lor (Z.shiftl acc 8) (byte_to_Z x)) b 0.

(** int64(u) of a uint64: the same bits, read as two's complement. *)
Definition to_int64 (z : Z) : Z :=
  let u := wrap64 z in if u <? 2 ^ 63 then u else u - 2 ^ 64.

Module CRC64.

(** crc64.ECMA *)
Definition ECMA : Z := 0xC96C5795D7870F42.

Definition shift1 (crc : Z) : Z :=
  if Z.testbit crc 0 then Z.lxor (Z.shiftr crc 1) ECMA else Z.shiftr crc 1.

(** crc64.MakeTable(ECMA)[i] *)
Definition table (i : Z) : Z := Nat.iter 8 shift1 i.

Definition not64 (z : Z) : Z := Z.lxor z (Z.ones 64).

Definition update_byte (crc : Z) (v : byte) : Z :=
  Z.lxor (table (Z.lxor (Z.land crc 255) (byte_to_Z v))) (Z.shiftr crc 8).

(** crc64.Update *)
Definition update (crc : Z) (p : list byte) : Z :=
  not64 (fold_left update_byte p (not64 crc)).

(** The digest after [Reset] and writes of [p] in any split, then
    [Sum(nil)]: eight bytes, big endian. *)
Definition Sum (p : list byte) : list byte := PutUint64 (update 0 p).

End CRC64.

(** bytes.Equal *)
Fixpoint bytes_eqb (a b : list byte) : bool :=
  match a, b with
  | [], [] => true
  | x :: a', y :: b' => Byte.eqb x y && bytes_eqb a' b'
  | _, _ => false
  end.

(** ** src/internal/storage/disk/snap_codec.go (the trailer layout) *)
Module Disk.

(** storage.Snapshot; [Raw] is taken to be non-nil, as every caller
    passes the address of a snapshot. *)
Record Snapshot : Type := mkSnapshot {
  Raw : RaftSnapshot;
  Members : list RawMember;
  Data : Reader
}.

Inductive SnapshotVersion : Type := V0.

(** raftpb.SnapshotTrailer *)
Record SnapshotTrailer : Type := mkTrailer {
  tr_CRC : list byte;
  tr_Version : SnapshotVersion;
  tr_Members : list RawMember;
  tr_Snapshot : RaftSnapshot
}.

(** The files of the state directory, by path. *)
Abbreviation FS := (gmap string (list byte)).

(** What can fail while a snapshot file is written: each field is the
    error of that call, if it fails. [wf_copy] is a failed write during
    io.Copy (a failing source is in the [Reader]). When a call fails,
    [wf_ondisk] bounds how much of what was handed to the buffered
    writer had reached the file. *)
Record WriteFaults : Type := mkWriteFaults {
  wf_create : option error;
  wf_copy : option error;
  wf_trailer : option error;
  wf_size : option error;
  wf_flush : option error;
  wf_fsync : option error;
  wf_ondisk : nat
}.

Definition no_write_faults : WriteFaults :=
  mkWriteFaults None None None None None None 0.

(** What can fail while a snapshot file is read. *)
Record ReadFaults : Type := mkReadFaults {
  rf_stat : option error;
  rf_copy : option error
}.

Definition no_read_faults : ReadFaults := mkReadFaults None None.

(** The largest slice [make] allocates (linux/amd64). *)
Definition maxAlloc : Z := 2 ^ 48.

(** f.ReadAt(b, off) with [len(b) = n]: the bytes read and the error. *)
Definition ReadAt (file : list byte) (n : Z) (off : Z)
    : list byte * option error :=
  if off <? 0 then ([], Some ErrNegativeOffset)
  else
    let chunk := take (Z.to_nat n) (drop (Z.to_nat off) file) in
    if Z.of_nat (length chunk) <? n then (chunk, Some EOF)
    else (chunk, None).

Definition first_error (a b : option error) : option error :=
  match a with Some e => Some e | None => b end.

Section codec.
(** The generated Marshal and Unmarshal of raftpb.SnapshotTrailer. *)
Variable trailer_Marshal : SnapshotTrailer -> res (list byte).
Variable trailer_Unmarshal : list byte -> res SnapshotTrailer.

Definition encodeSnapshot (wf : WriteFaults) (fs : FS) (path : string)
    (s : Snapshot) : res unit * FS :=
  match wf_create wf with
  | Some e => (Err e, fs)
  | None =>
      (* the file exists from here on; nothing below removes it *)
      let partial (written : list byte) : FS :=
        <[path := take (wf_ondisk wf) written]> fs in
      let payload := r_bytes (Data s) in
      match first_error (wf_copy wf) (r_err (Data s)) with
      | Some e => (Err e, partial payload)
      | None =>
          let trailer :=
            mkTrailer (CRC64.Sum payload) V0 (Members s) (Raw s) in
          match trailer_Marshal trailer with
          | Err e => (Err e, partial payload)
          | Panic => (Panic, partial payload)
          | Ok buf =>
              match wf_trailer wf with
              | Some e => (Err e, partial (payload ++ buf))
              | None =>
                  let tsize := wrap64 (Z.of_nat (length buf)) in
                  let bsize := PutUint64 tsize in
                  let all := payload ++ buf ++ bsize in
                  match wf_size wf with
                  | Some e => (Err e, partial all)
                  | None =>
                      match wf_flush wf with
                      | Some e => (Err e, partial all)
                      | None =>
                          match wf_fsync wf with
                          | Some e => (Err e, <[path := all]> fs)
                          | None => (Ok tt, <[path := all]> fs)
                          end
                      end
                  end
              end
          end
      end
  end.

Definition decodeSnapshot (rf : ReadFaults) (fs : FS) (path : string)
    : res Snapshot :=
  match fs !! path with
  | None => Err ErrNotExist
  | Some file =>
      match rf_stat rf with
      | Some e => Err e
      | None =>
          let fsize := Z.of_nat (length file) in
          match ReadAt file 8 (fsize - 8) with
          | (_, Some EOF) => Err ErrSnapshotFormat
          | (_, Some e) => Err e
          | (bsize, None) =>
              let size := Uint64 bsize in
              let eod := to_int64 (fsize - to_int64 (wrap64 (size + 8))) in
              if maxAlloc <? size then Panic     (* make([]byte, size) *)
              else
                match ReadAt file size eod with
                | (_, Some e) => Err e
                | (buf, None) =>
                    match trailer_Unmarshal buf with
                    | Err e => Err e
                    | Panic => Panic
                    | Ok trailer =>
                        (* the LimitedReader yields the first [eod] bytes *)
                        let payload := take (Z.to_nat eod) file in
                        match rf_copy rf with
                        | Some e => Err e
                        | None =>
                            if negb (bytes_eqb (tr_CRC trailer) (CRC64.Sum payload))
                            then Err ErrCRCMismatch
                            else Ok (mkSnapshot (tr_Snapshot trailer)
                                                (tr_Members trailer)
                                                (mkReader payload None))
                        end
                    end
                end
          end
      end
  end.

End codec.

(** The trailer [encodeSnapshot] builds for [s]. *)
Definition trailer_of (s : Snapshot) : SnapshotTrailer :=
  mkTrailer (CRC64.Sum (r_bytes (Data s))) V0 (Members s) (Raw s).

(** io.ReadAll of a [Reader]. *)
Definition ReadAll (r : Reader) : list byte * option error :=
  (r_bytes r, r_err r).

End Disk.

(** ** src/internal/storage/disk/snap_codec.go (the earlier layout, of
       delimited blocks behind a header, kept in the same source file) *)
Module DiskBlocks.

Definition delim : byte := x0d.      (* '\r' *)

(** The calls of [encodeSnapshot] that can fail once the file exists. *)
Inductive wstep : Type :=
| WBlock (i : nat)      (* w.Write(block) of message i *)
| WDelim (i : nat)      (* w.WriteByte(delim) after message i *)
| WCopy                 (* a write of io.Copy *)
| WSeek                 (* f.Seek(0, 0) *)
| WHeader.              (* the final w.Write(block) *)

Section codec.
(** proto.Marshal of the header (given its CRC field), of the raft
    snapshot and of the pool. *)
Variable header_Marshal : list byte -> res (list byte).
Variable snap_Marshal : RaftSnapshot -> res (list byte).
Variable pool_Marshal : list RawMember -> res (list byte).

(** One turn of the loop over [msgs]: marshal, write, delimiter. *)
Definition write_block (faults : wstep -> option error) (i : nat)
    (m : res (list byte)) : res (list byte) :=
  match m with
  | Ok block =>
      match Disk.first_error (faults (WBlock i)) (faults (WDelim i)) with
      | Some e => Err e
      | None => Ok (block ++ [delim])
      end
  | other => other
  end.

(** A write of [block] at offset 0 of a file holding [file]. *)
Definition overwrite (block file : list byte) : list byte :=
  block ++ drop (length block) file.

Definition encodeSnapshot (create_err : option error)
    (faults : wstep -> option error) (fs : gmap string (list byte))
    (path : string) (s : Daemon.SnapshotFile)
    : res unit * gmap string (list byte) :=
  match create_err with
  | Some e => (Err e, fs)
  | None =>
      (* the deferred function: if err != nil { os.Remove(path) } *)
      let fail (e : error) := (Err e, delete path fs) in
      match write_block faults 0 (header_Marshal (replicate 8 x00)) with
      | Err e => fail e
      | Panic => (Panic, <[path := []]> fs)
      | Ok hdr =>
      match write_block faults 1 (snap_Marshal (Daemon.sf_Snap s)) with
      | Err e => fail e
      | Panic => (Panic, <[path := hdr]> fs)
      | Ok b1 =>
      match write_block faults 2 (pool_Marshal (Daemon.sf_Pool s)) with
      | Err e => fail e
      | Panic => (Panic, <[path := hdr ++ b1]> fs)
      | Ok b2 =>
      let payload := r_bytes (Daemon.sf_Data s) in
      match Disk.first_error (faults WCopy) (r_err (Daemon.sf_Data s)) with
      | Some e => fail e
      | None =>
      match faults WSeek with
      | Some e => fail e
      | None =>
          let file := hdr ++ b1 ++ b2 ++ payload in
          (* pbutil.MustMarshal panics; err is nil in the deferred function *)
          match header_Marshal (CRC64.Sum (b1 ++ b2 ++ payload)) with
          | Ok block =>
              match faults WHeader with
              | Some e => fail e
              | None => (Ok tt, <[path := overwrite block file]> fs)
              end
          | _ => (Panic, <[path := file]> fs)
          end
      end end end end end
  end.

End codec.

End DiskBlocks.

(** ** Quorum sizes and member counts *)

Definition floor_quorum (n : nat) : nat := (n / 2 + 1)%nat.
Definition ceil_quorum (n : nat) : nat := ((n + 1) / 2 + 1)%nat.

(** The non-removed members for which IsActive holds. *)
Definition active_members (c : Cluster.cluster) : list Member :=
  List.filter IsActive (Cluster.Members c).

(** A member LongestActive may return: not the local one, ActiveSince set. *)
Definition eligible (m : Member) : bool :=
  negb (Time.IsZero (ActiveSince m) || MemberType_eqb (MType m) LocalMember).

(** The voters of a pool, and the active ones among them. *)
Definition voters_of (membs : list Member) : list Member :=
  List.filter (fun m => Daemon.is_Voter (MType m)) membs.
Definition reachable_voters_of (membs : list Member) : list Member :=
  List.filter (fun m => IsActive m && Daemon.is_Voter (MType m)) membs.

(** What [report] tells the reporter for a failed send of [msg]. *)
Definition failure_report (r : Remote.remote) (msg : Message) : Remote.report_call :=
  if is_MsgSnap (msg_Type msg)
  then Remote.ReportSnapshot (Remote.id r) SnapshotFailure
  else Remote.ReportUnreachable (Remote.id r).

(** ** Concrete clusters *)
Module Examples.

Definition node (i : Z) (t : MemberType) (since : Time.t) (act : bool) : Member :=
  mkMember i ":5052" t since act.

Definition leader_daemon (self lead : Z) : Cluster.daemon :=
  Cluster.mkDaemon true (mkStatus self lead None) (fun _ _ => None) [].

(** Three members, this node and two voters; one voter is down. *)
Definition two_of_three : Cluster.cluster :=
  Cluster.mkCluster
    [ node 1 LocalMember 0 true; node 2 VoterMember 100 true;
      node 3 VoterMember 0 false ]
    (leader_daemon 1 1) false.

(** Member 2 became active at instant 200, member 3 at instant 100. *)
Definition later_first : Cluster.cluster :=
  Cluster.mkCluster
    [ node 1 LocalMember 0 true; node 2 VoterMember 200 true;
      node 3 VoterMember 100 true ]
    (leader_daemon 1 1) false.

(** A follower of leader 2. *)
Definition follower_of_2 : Cluster.cluster :=
  Cluster.mkCluster
    [ node 1 LocalMember 0 true; node 2 VoterMember 100 true;
      node 3 VoterMember 150 true ]
    (leader_daemon 1 2) false.

(** A peer whose queue of two messages is full. *)
Definition full_remote : Remote.remote :=
  Remote.mkRemote 7 None [mkMessage MsgApp 7 1; mkMessage MsgHeartbeat 7 1]
                  2 false [].

Definition quiet : Remote.sched := Remote.mkSched false true.

(** The leader 1 with three voters, two of them reachable, and the
    staging member 5, whose Match equals the leader's. *)
Definition leader_status : Status :=
  mkStatus 1 1 (Some (<[1 := 10]> (<[5 := 10]> ∅))).

Definition staging_pool (third_up : bool) : list Member :=
  [ node 2 VoterMember 100 true; node 3 VoterMember 100 true;
    node 4 VoterMember 0 third_up; node 5 StagingMember 100 true ].

(** One voter of three reachable. *)
Definition lonely_pool : list Member :=
  [ node 2 VoterMember 100 true; node 3 VoterMember 0 false;
    node 4 VoterMember 0 false; node 5 StagingMember 100 true ].

(** Collaborators that log every call that changes them; the cache
    holds its latest snapshot. *)
Inductive call : Type :=
| CallFsmSnapshot | CallFsmRestore | CallFsmApply
| CallCacheCreateSnapshot (i : Z) | CallCacheCompact (i : Z)
| CallCacheApplySnapshot
| CallSnapshotterWrite (i : Z) | CallSnapshotterRead
| CallStorageSaveSnapshot (i : Z)
| CallPoolRestore | CallPoolAdd | CallPoolUpdate | CallPoolRemove
| CallNodeApplyConfChange | CallBroadcast (id : Z).

Record log_world : Type := mkLogWorld {
  lw_cache : RaftSnapshot;
  lw_calls : list call
}.

Definition logged (c : call) (w : log_world) : log_world :=
  mkLogWorld (lw_cache w) (lw_calls w ++ [c]).

Definition snapshot_at (i : Z) (cs : option ConfState) : RaftSnapshot :=
  mkRaftSnapshot [] (mkMetadata (default emptyConfState cs) i 1).

#[global] Instance log_collaborators : Daemon.Collaborators log_world := {|
  Daemon.fsm_Snapshot w := ((mkReader [x01; x02] None, None), logged CallFsmSnapshot w);
  Daemon.fsm_Restore _ w := (None, logged CallFsmRestore w);
  Daemon.fsm_Apply _ w := logged CallFsmApply w;
  Daemon.cache_Snapshot w := (lw_cache w, None);
  Daemon.cache_CreateSnapshot i cs w :=
    ((snapshot_at i cs, None),
     mkLogWorld (snapshot_at i cs) (lw_calls w ++ [CallCacheCreateSnapshot i]));
  Daemon.cache_Compact i w := (None, logged (CallCacheCompact i) w);
  Daemon.cache_ApplySnapshot sp w :=
    (None, mkLogWorld sp (lw_calls w ++ [CallCacheApplySnapshot]));
  Daemon.snapshotter_Write sf w :=
    (None, logged (CallSnapshotterWrite (md_Index (snap_Metadata (Daemon.sf_Snap sf)))) w);
  Daemon.snapshotter_Read sp w :=
    ((Daemon.mkSnapshotFile sp [] (mkReader [] None), None), logged CallSnapshotterRead w);
  Daemon.storage_SaveSnapshot sp w :=
    (None, logged (CallStorageSaveSnapshot (md_Index (snap_Metadata sp))) w);
  Daemon.pool_Snapshot _ := [];
  Daemon.pool_Restore _ w := logged CallPoolRestore w;
  Daemon.pool_Add _ w := (None, logged CallPoolAdd w);
  Daemon.pool_Update _ w := (None, logged CallPoolUpdate w);
  Daemon.pool_Remove_later _ w := logged CallPoolRemove w;
  Daemon.node_ApplyConfChange _ w := (None, logged CallNodeApplyConfChange w);
  Daemon.msgbus_Broadcast i _ w := logged (CallBroadcast i) w;
  Daemon.Replicate_Unmarshal b := Ok (1, b);
  Daemon.ConfChange_Unmarshal _ := Err (ErrExternal "proto: illegal wireType");
  Daemon.Member_Unmarshal _ := Err (ErrExternal "proto: illegal wireType")
|}.

Definition fresh : Daemon.daemon log_world :=
  Daemon.New 1000 (mkLogWorld emptySnapshot []).

Definition entries (from : Z) (n : nat) : list Entry :=
  map (fun k => mkEntry EntryNormal (from + Z.of_nat k) 1 [x2a]) (seq 1 n).

(** Three entries applied, a snapshot taken at 3, two more applied. *)
Definition after_snapshot : Daemon.daemon log_world :=
  Daemon.publishCommitted (entries 3 2)
    (snd (Daemon.CreateSnapshot (Daemon.publishCommitted (entries 0 3) fresh))).

(** Applied and snapshotted at 3. *)
Definition up_to_date : Daemon.daemon log_world :=
  snd (Daemon.CreateSnapshot (Daemon.publishCommitted (entries 0 3) fresh)).

(** A trailer codec with fixed-width integers and length-prefixed
    fields, standing in for the generated protobuf code. *)
Definition parser (A : Type) : Type := list byte -> option (A * list byte).

Definition get_bytes (n : nat) : parser (list byte) :=
  fun l => if (n <=? length l)%nat then Some (take n l, drop n l) else None.

Definition get_u64 : parser Z :=
  fun l => match get_bytes 8 l with
           | Some (b, l') => Some (Uint64 b, l')
           | None => None
           end.

Fixpoint get_list {A : Type} (p : parser A) (n : nat) : parser (list A) :=
  fun l => match n with
           | O => Some ([], l)
           | S n' =>
               match p l with
               | Some (x, l1) =>
                   match get_list p n' l1 with
                   | Some (xs, l2) => Some (x :: xs, l2)
                   | None => None
                   end
               | None => None
               end
           end.

Definition put_len (n : nat) : list byte := PutUint64 (Z.of_nat n).

Definition put_u64s (l : list Z) : list byte :=
  put_len (length l) ++ concat (map PutUint64 l).

Definition get_u64s : parser (list Z) :=
  fun l => match get_u64 l with
           | Some (n, l') => get_list get_u64 (Z.to_nat n) l'
           | None => None
           end.

Definition put_blob (b : list byte) : list byte := put_len (length b) ++ b.

Definition get_blob : parser (list byte) :=
  fun l => match get_u64 l with
           | Some (n, l') => get_bytes (Z.to_nat n) l'
           | None => None
           end.

Definition type_code (t : MemberType) : byte :=
  match t with
  | VoterMember => x00 | RemovedMember => x01 | StagingMember => x02
  | LearnerMember => x03 | LocalMember => x04 | LocalLearnerMember => x05
  end.

Definition type_of_code (b : byte) : option MemberType :=
  match b with
  | x00 => Some VoterMember | x01 => Some RemovedMember
  | x02 => Some StagingMember | x03 => Some LearnerMember
  | x04 => Some LocalMember | x05 => Some LocalLearnerMember
  | _ => None
  end.

Definition put_member (m : RawMember) : list byte :=
  PutUint64 (raw_ID m) ++ [type_code (raw_Type m)]
    ++ put_blob (String.list_byte_of_string (raw_Address m)).

Definition get_member : parser RawMember :=
  fun l =>
    match get_u64 l with
    | Some (i, t :: l1) =>
        match type_of_code t, get_blob l1 with
        | Some ty, Some (a, l2) =>
            Some (mkRaw i (String.string_of_list_byte a) ty, l2)
        | _, _ => None
        end
    | _ => None
    end.

Definition example_Marshal (t : Disk.SnapshotTrailer) : res (list byte) :=
  let sp := Disk.tr_Snapshot t in
  let md := snap_Metadata sp in
  let cs := md_ConfState md in
  Ok (put_blob (Disk.tr_CRC t) ++ [x00]
      ++ put_len (length (Disk.tr_Members t))
      ++ concat (map put_member (Disk.tr_Members t))
      ++ put_blob (snap_Data sp)
      ++ PutUint64 (md_Index md) ++ PutUint64 (md_Term md)
      ++ put_u64s (Voters cs) ++ put_u64s (Learners cs)
      ++ put_u64s (VotersOutgoing cs) ++ put_u64s (LearnersNext cs)
      ++ [if AutoLeave cs then x01 else x00]).

Definition example_Unmarshal (b : list byte) : res Disk.SnapshotTrailer :=
  let bad := Err (ErrExternal "unexpected EOF") in
  match get_blob b with
  | Some (crc, x00 :: l1) =>
      match get_u64 l1 with
      | Some (n, l2) =>
          match get_list get_member (Z.to_nat n) l2 with
          | Some (ms, l3) =>
              match get_blob l3 with
              | Some (data, l4) =>
                  match get_list get_u64 2 l4 with
                  | Some ([idx; term], l5) =>
                      match get_list get_u64s 4 l5 with
                      | Some ([vs; ls; vo; ln], [al]) =>
                          Ok (Disk.mkTrailer crc Disk.V0 ms
                                (mkRaftSnapshot data
                                   (mkMetadata
                                      (mkConfState vs ls vo ln (Byte.eqb al x01))
                                      idx term)))
                      | _ => bad
                      end
                  | _ => bad
                  end
              | None => bad
              end
          | None => bad
          end
      | None => bad
      end
  | _ => bad
  end.

Definition example_snapshot : Disk.Snapshot :=
  Disk.mkSnapshot
    (mkRaftSnapshot [] (mkMetadata (mkConfState [1; 2; 3] [4] [] [] false) 7 2))
    [ mkRaw 1 ":5051" LocalMember; mkRaw 2 ":5052" VoterMember;
      mkRaw 3 ":5053" VoterMember; mkRaw 4 ":5054" LearnerMember ]
    (mkReader [x72; x61; x66; x74] None).

Definition example_path : string := "0000000000000002-0000000000000007.snap".

Definition example_buf : list byte :=
  Eval vm_compute in
    match example_Marshal (Disk.trailer_of example_snapshot) with
    | Ok b => b
    | _ => []
    end.

(** The file of [example_snapshot] with the first payload byte flipped. *)
Definition corrupted_payload : list byte := [x73; x61; x66; x74].

Definition corrupted_fs : gmap string (list byte) :=
  {[ example_path :=
       corrupted_payload ++ example_buf
         ++ PutUint64 (Z.of_nat (length example_buf)) ]}.

(** A snapshot whose source fails after four bytes. *)
Definition failing_snapshot : Disk.Snapshot :=
  Disk.mkSnapshot (Disk.Raw example_snapshot) (Disk.Members example_snapshot)
    (mkReader [x72; x61; x66; x74] (Some (ErrExternal "read: input/output error"))).

End Examples.

(** ** src/cluster.go: the other administrative operations *)
Module Admin.

(** What the operations call besides ProposeConfChange: the transfer of
    leadership by the daemon, the next free id of the pool, the dial of
    the leader and the PromoteMember call on the dialled client (which
    not every client implements). *)
Record env : Type := mkEnv {
  e_TransferLeadership : Z -> option error;
  e_NextID : Z;
  e_dial : string -> option error;
  e_rpc_promotes : bool;
  e_rpc_PromoteMember : RawMember -> option error
}.

Inductive call : Type :=
| CallTransferLeadership (transferee : Z)
| CallDial (addr : string)
| CallPromoteMember (m : RawMember).

(** The errors of promoteMember: those of the chain and the daemon, and
    its own. *)
Inductive perror : Type :=
| PBase (e : error)
| ErrNotLearner (id : Z)        (* raft: memebr %x  is not a learner *)
| ErrNotSynced (id : Z)         (* raft: promotion failed, memebr %x not synced with the leader yet *)
| ErrNoPromoteRPC.              (* raft: TODO not all rpc client implemeints PromoteMember *)

Inductive pres : Type :=
| POk
| PErr (e : perror)
| PPanic.

Definition of_error (o : option error) : res unit :=
  match o with Some e => Err e | None => Ok tt end.

(** daemon.TransferLeadership: ErrStopped unless started. *)
Definition daemon_TransferLeadership (e : env) (d : Cluster.daemon) (id : Z)
    : res unit * list call :=
  if Cluster.d_started d
  then (of_error (e_TransferLeadership e id), [CallTransferLeadership id])
  else (Err ErrStopped, []).

Definition TransferLeadership_chain (id : Z) : list (Cluster.cluster -> res unit) :=
  [ Cluster.joined; Cluster.notMember id; Cluster.noLeader;
    Cluster.disableForwarding; Cluster.available ].

Definition TransferLeadership (e : env) (c : Cluster.cluster) (id : Z)
    : res unit * list call :=
  match Cluster.precondition c (TransferLeadership_chain id) with
  | Err er => (Err er, [])
  | Panic => (Panic, [])
  | Ok _ => daemon_TransferLeadership e (Cluster.c_daemon c) id
  end.

Definition StepDown_chain : list (Cluster.cluster -> res unit) :=
  [ Cluster.joined; Cluster.notLeader; Cluster.available ].

Definition StepDown (e : env) (c : Cluster.cluster) : res unit * list call :=
  match Cluster.precondition c StepDown_chain with
  | Err er => (Err er, [])
  | Panic => (Panic, [])
  | Ok _ =>
      match Cluster.LongestActive c with
      | Err er => (Err er, [])
      | Panic => (Panic, [])
      | Ok m => daemon_TransferLeadership e (Cluster.c_daemon c) (ID m)
      end
  end.

Definition Leave (c : Cluster.cluster) : res unit * Cluster.cluster :=
  Cluster.RemoveMember c (Cluster.Whoami c).

Definition propose (c : Cluster.cluster) (raw : RawMember) (t : ConfChangeType)
    : res unit * Cluster.cluster :=
  let '(r, d') := Cluster.daemon_ProposeConfChange (Cluster.c_daemon c) raw t in
  (r, Cluster.with_daemon c d').

Definition UpdateMember_chain (raw : RawMember) : list (Cluster.cluster -> res unit) :=
  [ Cluster.joined; Cluster.notMember (raw_ID raw);
    Cluster.addressInUse (raw_ID raw) (raw_Address raw);
    Cluster.noLeader; Cluster.disableForwarding; Cluster.available ].

Definition UpdateMember (c : Cluster.cluster) (raw : RawMember)
    : res unit * Cluster.cluster :=
  match Cluster.precondition c (UpdateMember_chain raw) with
  | Err er => (Err er, c)
  | Panic => (Panic, c)
  | Ok _ =>
      match Cluster.GetMemebr c (raw_ID raw) with
      | None => (Panic, c)               (* mem.Type() on a nil Member *)
      | Some mem =>
          propose c (mkRaw (raw_ID raw) (raw_Address raw) (MType mem))
                  ConfChangeUpdateNode
      end
  end.

Definition AddMember_chain (raw : RawMember) : list (Cluster.cluster -> res unit) :=
  [ Cluster.joined; Cluster.addressInUse (raw_ID raw) (raw_Address raw);
    Cluster.idInUse (raw_ID raw);
    Cluster.noLeader; Cluster.disableForwarding; Cluster.available ].

Definition is_learner_type (t : MemberType) : bool :=
  MemberType_eqb t LearnerMember || MemberType_eqb t LocalLearnerMember.

Definition AddMember (e : env) (c : Cluster.cluster) (raw : RawMember)
    : res unit * Cluster.cluster :=
  match Cluster.precondition c (AddMember_chain raw) with
  | Err er => (Err er, c)
  | Panic => (Panic, c)
  | Ok _ =>
      let raw := if raw_ID raw =? None_id
                 then mkRaw (e_NextID e) (raw_Address raw) (raw_Type raw)
                 else raw in
      let cct := if is_learner_type (raw_Type raw)
                 then ConfChangeAddLearnerNode else ConfChangeAddNode in
      propose c raw cct
  end.

Definition promoteMember_chain (id : Z) : list (Cluster.cluster -> res unit) :=
  [ Cluster.joined; Cluster.notMember id; Cluster.noLeader;
    Cluster.disableForwarding; Cluster.available ].

Definition pres_of (r : res unit) : pres :=
  match r with Ok _ => POk | Err e => PErr (PBase e) | Panic => PPanic end.

Definition promoteMember (e : env) (c : Cluster.cluster) (id : Z)
    (forwarded : bool) : pres * Cluster.cluster * list call :=
  match Cluster.precondition c (promoteMember_chain id) with
  | Err er => (PErr (PBase er), c, [])
  | Panic => (PPanic, c, [])
  | Ok _ =>
      match Cluster.GetMemebr c id with
      | None => (PPanic, c, [])          (* mem.Type() on a nil Member *)
      | Some mem =>
          if negb (MemberType_eqb (MType mem) LocalLearnerMember
                   || MemberType_eqb (MType mem) LearnerMember)
          then (PErr (ErrNotLearner id), c, [])
          else
            let '(rs, err) := Cluster.daemon_Status (Cluster.c_daemon c) in
            match err with
            | Some er => (PErr (PBase er), c, [])
            | None =>
                match st_Progress rs with
                | None =>
                    if forwarded then (PErr (PBase ErrNoLeader), c, [])
                    else
                      match Cluster.GetMemebr c (st_Lead rs) with
                      | None => (PErr (PBase ErrNoLeader), c, [])
                      | Some lmem =>
                          match e_dial e (Address lmem) with
                          | Some er =>
                              (PErr (PBase er), c, [CallDial (Address lmem)])
                          | None =>
                              if e_rpc_promotes e then
                                (pres_of (of_error (e_rpc_PromoteMember e (Raw mem))),
                                 c,
                                 [CallDial (Address lmem); CallPromoteMember (Raw mem)])
                              else (PErr ErrNoPromoteRPC, c, [CallDial (Address lmem)])
                          end
                      end
                | Some progress =>
                    let leader := Match progress (st_ID rs) in
                    let learner := Match progress id in
                    (* the learner's Match not caught up with the leader yet. *)
                    if Float64.lt_mul09 learner leader
                    then (PErr (ErrNotSynced id), c, [])
                    else
                      let raw := mkRaw (raw_ID (Raw mem)) (raw_Address (Raw mem))
                                       VoterMember in
                      let '(r, c') := propose c raw ConfChangeAddNode in
                      (pres_of r, c', [])
                end
            end
      end
  end.

Definition PromoteMember (e : env) (c : Cluster.cluster) (id : Z)
    : pres * Cluster.cluster * list call :=
  promoteMember e c id false.

End Admin.

Module AdminExamples.

Definition plain_env : Admin.env :=
  Admin.mkEnv (fun _ => None) 9 (fun _ => None) true (fun _ => None).

(** This node (1) leads; member 4 is a learner whose Match is the
    leader's. *)
Definition leading : Cluster.cluster :=
  Cluster.mkCluster
    [ Examples.node 1 LocalMember 0 true; Examples.node 2 VoterMember 100 true;
      Examples.node 3 VoterMember 150 true;
      mkMember 4 ":5054" LearnerMember 170 true ]
    (Cluster.mkDaemon true
       (mkStatus 1 1 (Some (<[1 := 10]> (<[4 := 10]> ∅))))
       (fun _ _ => None) [])
    false.

End AdminExamples.

(** ** src/internal/membership/remote.go: the send loop of a peer *)
Module RemoteLoop.

(** The fields [active] and [activeSince], guarded by [mu]. *)
Record status : Type := mkStatus {
  active : bool;
  activeSince : Time.t
}.

(** setStatus; [now] is what time.Now() reads if it is called. *)
Definition setStatus (now : Time.t) (s : status) (act : bool) : status :=
  if negb (active s) && act then mkStatus true now
  else if active s && negb act then mkStatus false Time.zero
  else s.

(** stream: one RoundTrip, whose error [rt] gives, and the report of it. *)
Definition stream (rt : Message -> option error) (r : Remote.remote)
    (msg : Message) : option error * Remote.remote :=
  let err := rt msg in
  (err, Remote.report r msg err).

Definition is_nil (o : option error) : bool :=
  match o with None => true | Some _ => false end.

(** The iterations of the loop of [run] that receive from [msgc] while
    the context is live: each message of the queue, with the reading of
    the clock at its turn. *)
Fixpoint run_loop (rt : Message -> option error) (q : list (Message * Time.t))
    (r : Remote.remote) (s : status) : Remote.remote * status :=
  match q with
  | [] => (r, s)
  | (msg, now) :: q' =>
      let '(err, r') := stream rt r msg in
      run_loop rt q' r' (setStatus now s (is_nil err))
  end.

(** context.DeadlineExceeded *)
Definition DeadlineExceeded : error := ErrExternal "context deadline exceeded".

(** drain, after [msgc] is closed: a receive is always ready, and
    [deadline] is the number of receives the select takes before it takes
    [ctx.Done()]. *)
Fixpoint drain_loop (rt : Message -> option error) (q : list Message)
    (deadline : nat) (r : Remote.remote) {struct deadline}
    : option error * Remote.remote :=
  match deadline with
  | O => (Some DeadlineExceeded, Remote.with_msgc r q)
  | S d =>
      match q with
      | [] => (None, Remote.with_msgc r [])      (* !ok *)
      | msg :: q' =>
          let '(err, r') := stream rt r msg in
          match err with
          | Some e => (Some e, Remote.with_msgc r' q')
          | None => drain_loop rt q' d r'
          end
      end
  end.

Definition drain (rt : Message -> option error) (deadline : nat)
    (r : Remote.remote) : option error * Remote.remote :=
  drain_loop rt (Remote.msgc r) deadline r.

(** The calls on the reporter for a list of messages streamed in order. *)
Definition reports_of (rt : Message -> option error) (r : Remote.remote)
    (msgs : list Message) : list Remote.report_call :=
  flat_map (fun m => Remote.report_calls r m (rt m)) msgs.

(** [active] and [activeSince] agree. *)
Definition status_ok (s : status) : Prop :=
  active s = negb (Time.IsZero (activeSince s)).

Definition last_succeeded (rt : Message -> option error)
    (q : list (Message * Time.t)) (before : bool) : bool :=
  match last q with
  | Some (m, _) => is_nil (rt m)
  | None => before
  end.

End RemoteLoop.

Module RemoteExamples.

Definition flaky (m : Message) : option error :=
  match msg_Type m with
  | MsgHeartbeat => Some (ErrExternal "rpc: unavailable")
  | _ => None
  end.

Definition idle : Remote.remote := Remote.mkRemote 7 None [] 4 false [].

Definition waiting : Remote.remote :=
  Remote.mkRemote 7 None
    [mkMessage MsgApp 7 1; mkMessage MsgSnap 7 1; mkMessage MsgHeartbeat 7 1;
     mkMessage MsgApp 7 1] 4 true [].

Definition arrivals : list (Message * Time.t) :=
  [(mkMessage MsgHeartbeat 7 1, 50); (mkMessage MsgApp 7 1, 60);
   (mkMessage MsgSnap 7 1, 70)].

End RemoteExamples.

(** ** src/internal/daemon: intake, notifications, sending and shutdown *)
Module DaemonLoop.

Section notifications.
Context {W : Type} `{!Daemon.Collaborators W}.

(** The loop of publishAppliedIndices, [for i := prev + 1; i < curr+1;
    i++], on uint64; [n] bounds the iterations left. *)
Fixpoint publishAppliedIndices_loop (n : nat) (i bound : Z) (w : W) : W :=
  match n with
  | O => w
  | S n' =>
      if i <? bound
      then publishAppliedIndices_loop n' (wrap64 (i + 1)) bound
             (Daemon.msgbus_Broadcast i None w)
      else w
  end.

Definition publishAppliedIndices (prev curr : Z) (w : W) : W :=
  let i0 := wrap64 (prev + 1) in
  let bound := wrap64 (curr + 1) in
  publishAppliedIndices_loop (Z.to_nat (bound - i0)) i0 bound w.

(** Broadcast(i, nil) for each [i] of a list, in order. *)
Definition broadcast_all (ids : list Z) (w : W) : W :=
  fold_left (fun w i => Daemon.msgbus_Broadcast i None w) ids w.

End notifications.

(** The intake of the daemon: the started flag and the two channels. *)
Record intake : Type := mkIntake {
  started : bool;
  proposec : list Message;
  msgc : list Message
}.

(** make(chan etcdraftpb.Message, 4096) *)
Definition chan_cap : nat := 4096.

Inductive pushed : Type :=
| PushOk                   (* returned nil *)
| PushErr (e : error)
| PushBlocks.              (* the channel is full: the caller waits *)

Definition is_MsgProp (t : MessageType) : bool :=
  match t with MsgProp => true | _ => false end.

Definition Push (m : Message) (st : intake) : pushed * intake :=
  if negb (started st) then (PushErr ErrStopped, st)
  else if is_MsgProp (msg_Type m) then
    if (length (proposec st) <? chan_cap)%nat
    then (PushOk, mkIntake (started st) (proposec st ++ [m]) (msgc st))
    else (PushBlocks, st)
  else
    if (length (msgc st) <? chan_cap)%nat
    then (PushOk, mkIntake (started st) (proposec st) (msgc st ++ [m]))
    else (PushBlocks, st).

(** Pushes by one caller, one after the other, up to the first that does
    not return nil. *)
Fixpoint Push_all (ms : list Message) (st : intake) : pushed * intake :=
  match ms with
  | [] => (PushOk, st)
  | m :: ms' =>
      match Push m st with
      | (PushOk, st') => Push_all ms' st'
      | other => other
      end
  end.

(** The part of the daemon that Close touches: the started flag and what
    has been shut so far. *)
Inductive closed : Type :=
| ClosedChannels | Cancelled | Waited | NodeStopped
| MsgbusClosed | StorageClosed | PoolClosed.

Record lifecycle : Type := mkLifecycle {
  l_started : bool;
  l_closed : list closed
}.

(** The errors of the three closers that can fail. *)
Record closers : Type := mkClosers {
  msgbus_Clsoe : option error;
  storage_Close : option error;
  pool_Close : option error
}.

(** The loop of Close over [fns]: the first error ends it. *)
Fixpoint run_closers (fns : list (closed * option error)) (done : list closed)
    : option error * list closed :=
  match fns with
  | [] => (None, done)
  | (c, err) :: fns' =>
      match err with
      | Some e => (Some e, done ++ [c])
      | None => run_closers fns' (done ++ [c])
      end
  end.

Definition Close (k : closers) (l : lifecycle) : option error * lifecycle :=
  if negb (l_started l) then (None, l)
  else
    let '(err, done) :=
      run_closers
        [ (ClosedChannels, None); (Cancelled, None); (Waited, None);
          (NodeStopped, None); (MsgbusClosed, msgbus_Clsoe k);
          (StorageClosed, storage_Close k); (PoolClosed, pool_Close k) ]
        (l_closed l) in
    (err, mkLifecycle false done).

Section sending.
(** A member of the pool and its Send, whatever its kind. *)
Context {P : Type} (member_Send : P -> Message -> option error * P).

(** The body of the loop of [send]. *)
Definition send_step (pool : gmap Z P) (m : Message) : gmap Z P :=
  match pool !! msg_To m with
  | None => pool                                 (* unknown member *)
  | Some mem => <[msg_To m := snd (member_Send mem m)]> pool
  end.

Definition send (msgs : list Message) (pool : gmap Z P) : gmap Z P :=
  fold_left send_step msgs pool.

(** The sends one member sees: the messages addressed to it, in order. *)
Definition sends_to (id : Z) (msgs : list Message) (mem : P) : P :=
  fold_left (fun p m => snd (member_Send p m))
            (List.filter (fun m => msg_To m =? id) msgs) mem.

End sending.

End DaemonLoop.

Module DaemonLoopExamples.

Definition open_intake : DaemonLoop.intake :=
  DaemonLoop.mkIntake true [mkMessage MsgProp 1 2] [].

Definition burst : list Message :=
  [ mkMessage MsgApp 1 2; mkMessage MsgProp 1 3; mkMessage MsgHeartbeat 1 2;
    mkMessage MsgProp 1 2 ].

Definition running : DaemonLoop.lifecycle := DaemonLoop.mkLifecycle true [].

Definition failing_storage : DaemonLoop.closers :=
  DaemonLoop.mkClosers None (Some (ErrExternal "wal: close")) None.

(** Peers 2 and 3, the queue of peer 3 full; every send is scheduled
    quietly. *)
Definition peers : gmap Z Remote.remote :=
  <[2 := Remote.mkRemote 2 None [] 2 false []]>
    (<[3 := Remote.mkRemote 3 None [mkMessage MsgApp 3 1] 1 false []]> ∅).

Definition remote_Send (r : Remote.remote) (m : Message)
    : option error * Remote.remote :=
  match Remote.Send Examples.quiet r m with
  | (Err e, r') => (Some e, r')
  | (_, r') => (None, r')
  end.

Definition outbound : list Message :=
  [ mkMessage MsgApp 2 1; mkMessage MsgApp 3 1; mkMessage MsgApp 9 1;
    mkMessage MsgHeartbeat 2 1 ].

End DaemonLoopExamples.

(** What a member promoted in a pass looks like. *)
Definition promoted_from (rs_ID : Z) (progress : gmap Z Z) (inProgress : gset Z)
    (membs : list Member) (p : RawMember) : Prop :=
  raw_Type p = VoterMember
  /\ (raw_ID p ∉ inProgress)
  /\ exists mem, In mem membs /\ MType mem = StagingMember
                 /\ ID mem = raw_ID p /\ Address mem = raw_Address p
                 /\ Float64.lt_mul09 (Match progress (ID mem))
                                     (Match progress rs_ID) = false.

(** ** src/internal/storage/disk/snap_codec.go: names, newest snapshot, peek *)
Module DiskNames.

(** The digit of [n] (0 to 15) in lower-case hexadecimal, as %x prints it. *)
Definition hex_digit (n : Z) : ascii :=
  nth (Z.to_nat n)
      [ "0"; "1"; "2"; "3"; "4"; "5"; "6"; "7";
        "8"; "9"; "a"; "b"; "c"; "d"; "e"; "f" ]%char "0"%char.

(** %016x of a uint64: sixteen digits, most significant first. *)
Definition hex16 (z : Z) : string :=
  String.string_of_list_ascii
    (map (fun k => hex_digit (Z.land (Z.shiftr z (4 * k)) 15))
         [15; 14; 13; 12; 11; 10; 9; 8; 7; 6; 5; 4; 3; 2; 1; 0]).

(** Modelled from the spec: the constants [format] and [snapExt], which
    are declared outside the files at hand; snapshot files are named
    {term:016x}-{index:016x}.snap. *)
Definition snapExt : string := ".snap".
Definition format (term index : Z) : string :=
  (hex16 term ++ "-" ++ hex16 index)%string.

Definition snapshotName (term index : Z) : string :=
  (format term index ++ snapExt)%string.

(** walpb.Snapshot: the marker of a snapshot in the WAL. *)
Record walSnapshot : Type := mkWalSnapshot {
  ws_Index : Z;
  ws_Term : Z
}.

Definition in_names (name : string) (files : list string) : bool :=
  existsb (String.eqb name) files.

(** The loop [for i := len(snaps) - 1; i >= 0; i--] with its break:
    [n] is [i + 1]. *)
Fixpoint newest_target (n : nat) (snaps : list walSnapshot) (files : list string)
    : string :=
  match n with
  | O => EmptyString
  | S i =>
      match nth_error snaps i with
      | Some sp =>
          let name := snapshotName (ws_Term sp) (ws_Index sp) in
          if in_names name files then name else newest_target i snaps files
      | None => EmptyString  (* out of range: not reached, i < len(snaps) *)
      end
  end.

Section codec.
Variable trailer_Unmarshal : list byte -> res Disk.SnapshotTrailer.
(** filepath.Join(dir, name) *)
Variable Join : string -> string -> string.

(** [ls] is what [list(dir, snapExt)] returns: the names of the snapshot
    files of the directory, or an error. *)
Definition decodeNewestAvailableSnapshot (rf : Disk.ReadFaults)
    (fs : gmap string (list byte)) (dir : string) (ls : res (list string))
    (snaps : list walSnapshot) : res Disk.Snapshot :=
  match ls with
  | Err e => Err e
  | Panic => Panic
  | Ok names =>
      let target := newest_target (length snaps) snaps names in
      if (String.length target =? 0)%nat then Err ErrNoSnapshot
      else Disk.decodeSnapshot trailer_Unmarshal rf fs (Join dir target)
  end.

(** peekSnapshot: decode, close the data, return the raw metadata. *)
Definition peekSnapshot (rf : Disk.ReadFaults) (fs : gmap string (list byte))
    (path : string) : res RaftSnapshot :=
  match Disk.decodeSnapshot trailer_Unmarshal rf fs path with
  | Ok sf => Ok (Disk.Raw sf)
  | Err e => Err e
  | Panic => Panic
  end.

End codec.

(** The value of a hexadecimal digit, and of a string of them. *)
Definition hex_value (c : ascii) : Z :=
  match find (fun n => Ascii.eqb (hex_digit n) c) (seqZ 0 16) with
  | Some n => n
  | None => 0
  end.

Definition parse_hex (s : string) : Z :=
  fold_left (fun acc c => acc * 16 + hex_value c) (String.list_ascii_of_string s) 0.

End DiskNames.

Module DiskExamples.

Definition example_file : list byte :=
  r_bytes (Disk.Data Examples.example_snapshot) ++ Examples.example_buf
    ++ PutUint64 (Z.of_nat (length Examples.example_buf)).

Definition encoded_fs : gmap string (list byte) :=
  {[ Examples.example_path := example_file ]}.

Definition decoded : Disk.Snapshot :=
  Disk.mkSnapshot (Disk.Raw Examples.example_snapshot)
    (Disk.Members Examples.example_snapshot)
    (mkReader (r_bytes (Disk.Data Examples.example_snapshot)) None).

(** A file of five bytes. *)
Definition short_fs : gmap string (list byte) :=
  {[ Examples.example_path := [x01; x02; x03; x04; x05] ]}.

End DiskExamples.

(** * Start: the start options and the operators handed to the daemon *)

Module StartOptions.

#[local] Set Warnings "-register-all".

(** Modelled from the spec: the operator constructors of package daemon
    (Join, ForceJoin, InitCluster, ForceNewCluster, Restore, Restart,
    Members, Fallback), which are declared outside the files at hand; an
    operator is kept as the call that made it.  [setup], [stateSetup] and
    [removedMembers] are the three operators [daemon.Start] builds itself. *)
Inductive Operator : Type :=
| Join (addr : string) (timeout : Z)
| ForceJoin (addr : string) (timeout : Z)
| InitCluster
| ForceNewCluster
| Restore (path : string)
| Restart
| Members (urls : list string)
| Fallback (oprs : list Operator)
| setup (addr : string)
| stateSetup
| removedMembers.

(** The StartOption values config.go can build: [apply] is unexported, so
    these constructors are the only ones. *)
Inductive StartOption : Type :=
| WithJoin (addr : string) (timeout : Z)
| WithForceJoin (addr : string) (timeout : Z)
| WithInitCluster
| WithForceNewCluster
| WithRestore (path : string)
| WithRestart
| WithMembers (urls : list string)
| WithAddress (addr : string)
| WithFallback (opts : list StartOption).

Record startConfig : Type := mkStartConfig {
  operators : list Operator;
  addr : string
}.

(** new(startConfig) *)
Definition new_startConfig : startConfig := mkStartConfig [] EmptyString.

Definition appendOperator (c : startConfig) (opr : Operator) : startConfig :=
  mkStartConfig (operators c ++ [opr]) (addr c).

(** [opt.apply(c)] for each of the options. *)
Fixpoint option_apply (opt : StartOption) (c : startConfig) : startConfig :=
  match opt with
  | WithJoin a t => appendOperator c (Join a t)
  | WithForceJoin a t => appendOperator c (ForceJoin a t)
  | WithInitCluster => appendOperator c InitCluster
  | WithForceNewCluster => appendOperator c ForceNewCluster
  | WithRestore p => appendOperator c (Restore p)
  | WithRestart => appendOperator c Restart
  | WithMembers urls => appendOperator c (Members urls)
  | WithAddress a => mkStartConfig (operators c) a
  | WithFallback opts =>
      let nc := fold_left (fun nc o => option_apply o nc) opts new_startConfig in
      appendOperator c (Fallback (operators nc))
  end.

(** startConfig.apply *)
Definition apply (c : startConfig) (opts : list StartOption) : startConfig :=
  fold_left (fun c o => option_apply o c) opts c.

(** The operators [daemon.Start] passes to [invoke]:
    [oprs = append(oprs, sp, ssp, rm)]. *)
Definition daemon_Start_operators (addr : string) (oprs : list Operator)
    : list Operator :=
  oprs ++ [setup addr; stateSetup; removedMembers].

(** cluster.Start, up to the call of [invoke]. *)
Definition Start_operators (opts : list StartOption) : list Operator :=
  let cfg := apply new_startConfig opts in
  daemon_Start_operators (addr cfg) (operators cfg).

(** The operator an option stands for, if any: an address stands for
    none, at the top and inside a fallback. *)
Fixpoint operator_of (opt : StartOption) : option Operator :=
  match opt with
  | WithJoin a t => Some (Join a t)
  | WithForceJoin a t => Some (ForceJoin a t)
  | WithInitCluster => Some InitCluster
  | WithForceNewCluster => Some ForceNewCluster
  | WithRestore p => Some (Restore p)
  | WithRestart => Some Restart
  | WithMembers urls => Some (Members urls)
  | WithAddress _ => None
  | WithFallback opts => Some (Fallback (omap operator_of opts))
  end.

End StartOptions.

(** * The snapshotter's writer *)

Module Snapshoter.

Section snapshoter.
Variable trailer_Unmarshal : list byte -> res Disk.SnapshotTrailer.
(** filepath.Join *)
Variable Join : string -> string -> string.
Variable snapdir : string.

(** Writer: os.Create(path) fails, or leaves an empty file at [path];
    the writer returned writes to that file. *)
Definition Writer (create_err : option error) (fs : gmap string (list byte))
    (name : string) : res string * gmap string (list byte) :=
  let path := Join snapdir name in
  match create_err with
  | Some e => (Err e, fs)
  | None => (Ok path, <[path := []]> fs)
  end.

(** What the writer leaves once [data] has been written through it. *)
Definition written (fs : gmap string (list byte)) (path : string)
    (data : list byte) : gmap string (list byte) :=
  <[path := data]> fs.

(** The [peek] closure of Writer: [peekSnapshot(name)], and on an error
    [_ = os.Remove(path)], whose own error ([remove_err]) is dropped. *)
Definition peek (rf : Disk.ReadFaults) (remove_err : option error)
    (fs : gmap string (list byte)) (name : string)
    : res RaftSnapshot * gmap string (list byte) :=
  let path := Join snapdir name in
  match DiskNames.peekSnapshot trailer_Unmarshal rf fs name with
  | Err e =>
      (Err e, match remove_err with Some _ => fs | None => delete path fs end)
  | Panic => (Panic, fs)
  | Ok s => (Ok s, fs)
  end.

End snapshoter.

End Snapshoter.
(** * Theorems *)

(** ** Cluster facade *)

Lemma MemberType_eqb_eq a b : MemberType_eqb a b = true <-> a = b.
Proof. destruct a, b; simpl; split; congruence. Qed.

Lemma filter_active_not_removed (p : list Member) :
  Forall (fun m => MType m = RemovedMember -> IsActive m = false) p ->
  List.filter IsActive
    (List.filter (fun m => negb (MemberType_eqb (MType m) RemovedMember)) p)
  = List.filter IsActive p.
Proof.
  induction 1 as [|m p Hm _ IH]; simpl; [reflexivity|].
  destruct (MemberType_eqb (MType m) RemovedMember) eqn:E; simpl.
  - apply MemberType_eqb_eq in E. rewrite (Hm E). exact IH.
  - destruct (IsActive m); [f_equal|]; exact IH.
Qed.

(** The count [IsAvailable] compares with the quorum is taken over the
    whole pool, removed members included. *)
Lemma IsAvailable_counts_whole_pool (c : Cluster.cluster) :
  Cluster.IsAvailable c = true <->
  (floor_quorum (length (Cluster.Members c))
   <= length (List.filter IsActive (Cluster.c_pool c)))%nat.
Proof. unfold Cluster.IsAvailable, floor_quorum. apply Nat.leb_le. Qed.

(** C4, as the code has it: when no removed member reports IsActive,
    [IsAvailable] is true exactly when the number of non-removed members
    for which IsActive holds is at least floor(N/2)+1, N being the
    number of non-removed members. *)
Theorem IsAvailable_iff_floor_quorum (c : Cluster.cluster) :
  Forall (fun m => MType m = RemovedMember -> IsActive m = false)
         (Cluster.c_pool c) ->
  Cluster.IsAvailable c = true <->
  (floor_quorum (length (Cluster.Members c)) <= length (active_members c))%nat.
Proof.
  intros Hrm. unfold Cluster.IsAvailable, active_members, floor_quorum.
  unfold Cluster.Members, Cluster.members.
  rewrite (filter_active_not_removed _ Hrm).
  apply Nat.leb_le.
Qed.

Lemma IsAvailable_iff_floor_quorum_witness :
  Cluster.IsAvailable Examples.two_of_three = true <->
  (floor_quorum (length (Cluster.Members Examples.two_of_three))
   <= length (active_members Examples.two_of_three))%nat.
Proof.
  apply (IsAvailable_iff_floor_quorum Examples.two_of_three).
  repeat constructor; simpl; congruence.
Defined.

(** C4 as stated fails: with two of three members active the cluster is
    available, yet two is less than ceil(3/2)+1. *)
Lemma IsAvailable_ceil_quorum_counterexample :
  ~ (forall c : Cluster.cluster,
       Cluster.IsAvailable c = true <->
       (ceil_quorum (length (Cluster.Members c)) <= length (active_members c))%nat).
Proof.
  intros H. destruct (H Examples.two_of_three) as [H1 _].
  specialize (H1 eq_refl). vm_compute in H1. lia.
Qed.

Lemma LongestActive_keeps_first (l : list Member) (m : Member) :
  Forall (fun x => 0 <= ActiveSince x) l ->
  fold_left Cluster.LongestActive_step l (Some m, Time.zero) = (Some m, Time.zero).
Proof.
  induction 1 as [|x l Hx _ IH]; simpl; [reflexivity|].
  destruct (Time.IsZero (ActiveSince x) || MemberType_eqb (MType x) LocalMember);
    [exact IH|].
  unfold Time.Before, Time.zero.
  destruct (Z.ltb_spec (ActiveSince x) 0); [lia | exact IH].
Qed.

(** With every ActiveSince at or after the zero instant (as all readings
    of the clock are), [LongestActive] returns the first member of
    [Members] that is not local and has ActiveSince set, whatever the
    instants of the others. *)
Lemma LongestActive_returns_first (c : Cluster.cluster) :
  Forall (fun x => 0 <= ActiveSince x) (Cluster.Members c) ->
  Cluster.LongestActive c =
  match List.find eligible (Cluster.Members c) with
  | Some m => Ok m
  | None => Err ErrNoLongestActive
  end.
Proof.
  unfold Cluster.LongestActive. generalize (Cluster.Members c) as l.
  induction l as [|x l IH]; intros Hl; simpl; [reflexivity|].
  inversion Hl as [|? ? Hx Hl']; subst.
  unfold eligible at 1.
  destruct (Time.IsZero (ActiveSince x) || MemberType_eqb (MType x) LocalMember);
    simpl.
  - apply IH, Hl'.
  - now rewrite (LongestActive_keeps_first l x Hl').
Qed.

(** C5 at a failing input: member 2 (active since 200) comes before
    member 3 (active since 100) in the pool; [LongestActive] returns
    member 2, although member 3 has the earlier ActiveSince. *)
Theorem LongestActive_not_earliest :
  Cluster.LongestActive Examples.later_first
    = Ok (Examples.node 2 VoterMember 200 true)
  /\ In (Examples.node 3 VoterMember 100 true)
        (Cluster.Members Examples.later_first)
  /\ eligible (Examples.node 3 VoterMember 100 true) = true
  /\ Time.Before (ActiveSince (Examples.node 3 VoterMember 100 true))
                 (ActiveSince (Examples.node 2 VoterMember 200 true)) = true.
Proof. vm_compute. intuition. Qed.

Lemma precondition_first_failure (c : Cluster.cluster)
    (pre post : list (Cluster.cluster -> res unit)) f e :
  Forall (fun g => g c = Ok tt) pre ->
  f c = Err e ->
  Cluster.precondition c (pre ++ f :: post) = Err e.
Proof.
  induction 1 as [|g pre Hg _ IH]; intros Hf; simpl.
  - now rewrite Hf.
  - rewrite Hg. now apply IH.
Qed.

(** C9: the chain of RemoveMember is joined, notMember, memberRemoved,
    rmLeader, noLeader, disableForwarding, available, in this order; when
    the predicates before one that fails pass, RemoveMember returns the
    error of that one and the cluster, with the conf changes handed to
    the daemon, is as before. In particular on a joined node, for a
    member that is not removed and is the leader, the error is the one of
    rmLeader. *)
Theorem RemoveMember_precondition_chain (c : Cluster.cluster) (id : Z) :
  Cluster.RemoveMember_chain id =
    [ Cluster.joined; Cluster.notMember id; Cluster.memberRemoved id;
      Cluster.rmLeader id; Cluster.noLeader; Cluster.disableForwarding;
      Cluster.available ]
  /\ (forall pre f post e,
        Cluster.RemoveMember_chain id = pre ++ f :: post ->
        Forall (fun g => g c = Ok tt) pre ->
        f c = Err e ->
        Cluster.RemoveMember c id = (Err e, c))
  /\ (Cluster.precondition c (Cluster.RemoveMember_chain id) <> Ok tt ->
      snd (Cluster.RemoveMember c id) = c)
  /\ (Cluster.Whoami c <> 0 ->
      Cluster.IsMember c id = true ->
      Cluster.IsMemberRemoved c id = Ok false ->
      id = Cluster.Leader c ->
      Cluster.RemoveMember c id = (Err (ErrRmLeader id), c)
      /\ Cluster.proposed (snd (Cluster.RemoveMember c id)) = Cluster.proposed c).
Proof.
  split; [reflexivity|].
  assert (Hchain : forall pre f post e,
             Cluster.RemoveMember_chain id = pre ++ f :: post ->
             Forall (fun g => g c = Ok tt) pre ->
             f c = Err e ->
             Cluster.RemoveMember c id = (Err e, c)).
  { intros pre f post e Heq Hpre Hf. unfold Cluster.RemoveMember.
    rewrite Heq. now rewrite (precondition_first_failure c pre post f e). }
  split; [exact Hchain|].
  split.
  { unfold Cluster.RemoveMember. intros Hne.
    destruct (Cluster.precondition c (Cluster.RemoveMember_chain id)) as [[]| |];
      [congruence | reflexivity | reflexivity]. }
  intros Hj Hm Hr Hl.
  assert (Cluster.RemoveMember c id = (Err (ErrRmLeader id), c)) as ->.
  { apply (Hchain [Cluster.joined; Cluster.notMember id; Cluster.memberRemoved id]
                  (Cluster.rmLeader id)
                  [Cluster.noLeader; Cluster.disableForwarding; Cluster.available]).
    - reflexivity.
    - repeat constructor.
      + unfold Cluster.joined. destruct (Z.eqb_spec (Cluster.Whoami c) 0); congruence.
      + unfold Cluster.notMember. now rewrite Hm.
      + unfold Cluster.memberRemoved. now rewrite Hr.
    - unfold Cluster.rmLeader. rewrite <- Hl. now rewrite Z.eqb_refl. }
  split; reflexivity.
Qed.

Lemma RemoveMember_precondition_chain_witness :
  Cluster.RemoveMember Examples.follower_of_2 2
    = (Err (ErrRmLeader 2), Examples.follower_of_2)
  /\ Cluster.proposed (snd (Cluster.RemoveMember Examples.follower_of_2 2))
     = Cluster.proposed Examples.follower_of_2.
Proof.
  apply (RemoveMember_precondition_chain Examples.follower_of_2 2).
  - vm_compute. congruence.
  - reflexivity.
  - reflexivity.
  - reflexivity.
Defined.

(** When the whole chain passes, one RemoveNode conf change for the
    member, re-typed as removed, is handed to the daemon. *)
Example RemoveMember_proposes :
  Cluster.RemoveMember Examples.follower_of_2 3
  = (Ok tt,
     Cluster.with_daemon Examples.follower_of_2
       (Cluster.mkDaemon true (mkStatus 1 2 None) (fun _ _ => None)
          [(mkRaw 3 ":5052" RemovedMember, ConfChangeRemoveNode)])).
Proof. reflexivity. Qed.

(** The chain of RemoveMember never panics: [memberRemoved] is reached
    for known members only. *)
Lemma RemoveMember_no_panic (c : Cluster.cluster) (id : Z) :
  fst (Cluster.RemoveMember c id) <> Panic.
Proof.
  unfold Cluster.RemoveMember, Cluster.RemoveMember_chain. cbn [Cluster.precondition].
  unfold Cluster.joined. destruct (Cluster.Whoami c =? 0); [simpl; congruence|].
  unfold Cluster.notMember, Cluster.IsMember, Cluster.GetMemebr.
  destruct (Cluster.pool_Get (Cluster.c_pool c) id) as [mem|] eqn:Hg;
    [|simpl; congruence].
  cbn [negb]. unfold Cluster.memberRemoved, Cluster.IsMemberRemoved, Cluster.GetMemebr.
  rewrite Hg.
  destruct (MemberType_eqb (MType mem) RemovedMember); [simpl; congruence|].
  unfold Cluster.rmLeader. destruct (id =? Cluster.Leader c); [simpl; congruence|].
  unfold Cluster.noLeader. destruct (Cluster.Leader c =? None_id); [simpl; congruence|].
  unfold Cluster.disableForwarding.
  destruct (negb (Cluster.Leader c =? Cluster.Whoami c) && Cluster.c_disableForwarding c);
    [simpl; congruence|].
  unfold Cluster.available.
  destruct (negb (Cluster.IsAvailable c)); [simpl; congruence|].
  unfold Cluster.daemon_ProposeConfChange.
  destruct (Cluster.d_started (Cluster.c_daemon c)); [|simpl; congruence].
  destruct (Cluster.d_propose _ _ _); simpl; congruence.
Qed.

(** ** Remote peer *)

Lemma report_calls_failure r msg e :
  Remote.report_calls r msg (Some e) = [failure_report r msg].
Proof. unfold Remote.report_calls, failure_report. now destruct (is_MsgSnap _). Qed.

Lemma Send_body_id s r msg x r' :
  Remote.Send_body s r msg = (x, r') ->
  Remote.id r' = Remote.id r /\ Remote.reported r' = Remote.reported r.
Proof.
  unfold Remote.Send_body. intros H.
  destruct (Remote.ctx_err r) eqn:Ec; [inversion H; subst; auto|].
  destruct (Remote.cancel_between s); simpl in H;
    rewrite ?Ec in H; simpl in H;
    repeat match type of H with
           | context [if ?b then _ else _] => destruct b; simpl in H
           end;
    inversion H; subst; auto.
Qed.

Lemma Send_body_error_keeps_msgc s r msg e r' :
  Remote.Send_body s r msg = (Err e, r') -> Remote.msgc r' = Remote.msgc r.
Proof.
  unfold Remote.Send_body. intros H.
  destruct (Remote.ctx_err r) eqn:Ec; [inversion H; subst; auto|].
  destruct (Remote.cancel_between s); simpl in H;
    rewrite ?Ec in H; simpl in H;
    repeat match type of H with
           | context [if ?b then _ else _] => destruct b; simpl in H
           end;
    inversion H; subst; auto.
Qed.

(** C6: with the context live and [msgc] full, [Send] returns the
    overloaded error at once, the queue as before; and whenever [Send]
    returns an error, it has made one call on the reporter for it,
    ReportSnapshot with SnapshotFailure for a MsgSnap and
    ReportUnreachable for any other message. *)
Theorem Send_overloaded_and_reported (s : Remote.sched) (r : Remote.remote)
    (msg : Message) :
  Remote.ctx_err r = None ->
  Remote.cancel_between s = false ->
  Remote.msgc_closed r = false ->
  (Remote.msgc_cap r <= length (Remote.msgc r))%nat ->
  (exists r',
      Remote.Send s r msg = (Err (ErrOverloaded (Remote.id r)), r')
      /\ Remote.msgc r' = Remote.msgc r
      /\ Remote.reported r' = Remote.reported r ++ [failure_report r msg])
  /\ (forall s0 r0 m0 e r',
        Remote.Send s0 r0 m0 = (Err e, r') ->
        Remote.reported r' = Remote.reported r0 ++ [failure_report r0 m0]
        /\ Remote.msgc r' = Remote.msgc r0).
Proof.
  intros Hctx Hcancel Hclosed Hfull. split.
  - unfold Remote.Send, Remote.Send_body.
    rewrite Hctx, Hcancel, Hclosed. simpl. rewrite Hctx.
    destruct (Nat.ltb_spec (length (Remote.msgc r)) (Remote.msgc_cap r)); [lia|].
    eexists. split; [reflexivity|].
    split; [reflexivity|].
    unfold Remote.report, failure_report. simpl.
    now destruct (is_MsgSnap (msg_Type msg)).
  - intros s0 r0 m0 e r'. unfold Remote.Send.
    destruct (Remote.Send_body s0 r0 m0) as [[u|e0|] r1] eqn:Hb; intros H;
      inversion H; subst.
    unfold Remote.report, Remote.with_reported. cbn [Remote.reported].
    rewrite report_calls_failure.
    destruct (Send_body_id _ _ _ _ _ Hb) as [Hid Hrep].
    rewrite Hrep. unfold failure_report. rewrite Hid.
    split; [reflexivity|]. exact (Send_body_error_keeps_msgc _ _ _ _ _ Hb).
Qed.

Lemma Send_overloaded_and_reported_witness :
  exists r',
    Remote.Send Examples.quiet Examples.full_remote (mkMessage MsgSnap 7 1)
      = (Err (ErrOverloaded 7), r')
    /\ Remote.msgc r' = Remote.msgc Examples.full_remote
    /\ Remote.reported r' = [Remote.ReportSnapshot 7 SnapshotFailure].
Proof.
  apply (Send_overloaded_and_reported Examples.quiet Examples.full_remote
           (mkMessage MsgSnap 7 1)).
  - reflexivity.
  - reflexivity.
  - reflexivity.
  - simpl. lia.
Defined.

(** A send of an ordinary message to the full queue is reported as
    unreachable; a send with room is queued and not reported. *)
Example Send_full_MsgApp :
  Remote.Send Examples.quiet Examples.full_remote (mkMessage MsgApp 7 1)
  = (Err (ErrOverloaded 7),
     Remote.with_reported Examples.full_remote [Remote.ReportUnreachable 7]).
Proof. reflexivity. Qed.

Example Send_with_room :
  Remote.Send Examples.quiet
    (Remote.mkRemote 7 None [mkMessage MsgApp 7 1] 2 false [])
    (mkMessage MsgHeartbeat 7 1)
  = (Ok tt,
     Remote.mkRemote 7 None [mkMessage MsgApp 7 1; mkMessage MsgHeartbeat 7 1]
                     2 false []).
Proof. reflexivity. Qed.

(** ** Promotions *)

Example lt_mul09_values :
  Float64.lt_mul09 8 10 = true /\ Float64.lt_mul09 9 10 = false
  /\ Float64.lt_mul09 899 1000 = true /\ Float64.lt_mul09 900 1000 = false
  /\ Float64.of_uint64 (2 ^ 53 + 1) = 2 ^ 53
  /\ Float64.of_uint64 (2 ^ 53 + 3) = 2 ^ 53 + 4.
Proof. vm_compute. repeat split. Qed.

Example promotions_pass_promotes :
  Daemon.promotions_pass Examples.leader_status (Examples.staging_pool true) ∅
  = ([mkRaw 5 ":5052" VoterMember], {[5]}).
Proof. vm_compute. reflexivity. Qed.

Lemma promotions_step_counts rs_ID progress inProgress acc m :
  let acc' := Daemon.promotions_step rs_ID progress inProgress acc m in
  Daemon.sc_voters acc' =
    (if Daemon.is_Voter (MType m) then S (Daemon.sc_voters acc)
     else Daemon.sc_voters acc)
  /\ Daemon.sc_reachables acc' =
    (if IsActive m && Daemon.is_Voter (MType m) then S (Daemon.sc_reachables acc)
     else Daemon.sc_reachables acc).
Proof.
  unfold Daemon.promotions_step. simpl.
  repeat match goal with
         | |- context [if ?b then Daemon.mkScan _ _ _ else _] => destruct b
         end; simpl; split; reflexivity.
Qed.

Lemma promotions_scan_counts rs_ID progress inProgress membs acc :
  let sc := fold_left (Daemon.promotions_step rs_ID progress inProgress) membs acc in
  Daemon.sc_voters sc = (Daemon.sc_voters acc + length (voters_of membs))%nat
  /\ Daemon.sc_reachables sc =
     (Daemon.sc_reachables acc + length (reachable_voters_of membs))%nat.
Proof.
  revert acc. induction membs as [|m membs IH]; intros acc; simpl.
  - split; lia.
  - destruct (IH (Daemon.promotions_step rs_ID progress inProgress acc m)) as [Hv Hr].
    destruct (promotions_step_counts rs_ID progress inProgress acc m) as [Sv Sr].
    simpl in Sv, Sr. rewrite Hv, Hr, Sv, Sr. unfold voters_of, reachable_voters_of.
    simpl.
    destruct (Daemon.is_Voter (MType m)), (IsActive m); simpl; split; lia.
Qed.

(** C7, as the code has it: when fewer than floor(voters/2)+1 of the
    voters are active, the pass starts no promotion and leaves the set of
    promotions in flight as it was. *)
Theorem promotions_abort_below_floor_quorum (rs : Status) (membs : list Member)
    (inProgress : gset Z) :
  (length (reachable_voters_of membs) < floor_quorum (length (voters_of membs)))%nat ->
  Daemon.promotions_pass rs membs inProgress = ([], inProgress).
Proof.
  intros Hq. unfold Daemon.promotions_pass.
  destruct (st_Progress rs) as [progress|]; [|reflexivity].
  unfold Daemon.promotions_scan.
  destruct (promotions_scan_counts (st_ID rs) progress inProgress membs
              (Daemon.mkScan [] 0 0)) as [Hv Hr].
  simpl in Hv, Hr. rewrite Hv, Hr. unfold floor_quorum in Hq.
  destruct (Nat.ltb_spec (length (reachable_voters_of membs))
                         (length (voters_of membs) / 2 + 1)); [reflexivity | lia].
Qed.

Lemma promotions_abort_below_floor_quorum_witness :
  Daemon.promotions_pass Examples.leader_status Examples.lonely_pool ∅ = ([], ∅).
Proof.
  apply (promotions_abort_below_floor_quorum Examples.leader_status
           Examples.lonely_pool ∅).
  vm_compute. lia.
Defined.

(** C7 as stated fails: with two of three voters active, fewer than
    ceil(3/2)+1, the pass promotes the staging member 5. *)
Lemma promotions_ceil_quorum_counterexample :
  ~ (forall (rs : Status) (membs : list Member) (inProgress : gset Z),
       (length (reachable_voters_of membs) < ceil_quorum (length (voters_of membs)))%nat ->
       fst (Daemon.promotions_pass rs membs inProgress) = []).
Proof.
  intros H.
  specialize (H Examples.leader_status (Examples.staging_pool false) ∅).
  assert (Hlt : (length (reachable_voters_of (Examples.staging_pool false))
                 < ceil_quorum (length (voters_of (Examples.staging_pool false))))%nat)
    by (vm_compute; lia).
  specialize (H Hlt). vm_compute in H. discriminate H.
Qed.

(** ** Daemon: applied and snapshot indices *)

Section daemon_indices.
Context {W : Type} `{!Daemon.Collaborators W}.

Ltac break_match :=
  match goal with
  | |- context [match ?x with _ => _ end] => destruct x eqn:?
  end.

(** CreateSnapshot leaves the applied index alone; the snapshot index
    is as before, or the applied index read at the start. *)
Lemma CreateSnapshot_indices (d : Daemon.daemon W) :
  let d' := snd (Daemon.CreateSnapshot d) in
  Daemon.appliedIndex d' = Daemon.appliedIndex d
  /\ (Daemon.snapIndex d' = Daemon.snapIndex d
      \/ Daemon.snapIndex d' = Daemon.appliedIndex d).
Proof.
  unfold Daemon.CreateSnapshot, Daemon.confState.
  repeat break_match; simpl; auto.
Qed.

(** publishSnapshotFile fails and leaves both counters alone, or sets
    both to the index of the snapshot. *)
Lemma publishSnapshotFile_indices (sf : Daemon.SnapshotFile) (d : Daemon.daemon W) :
  let d' := snd (Daemon.publishSnapshotFile sf d) in
  let i := md_Index (snap_Metadata (Daemon.sf_Snap sf)) in
  (Daemon.appliedIndex d' = Daemon.appliedIndex d
     /\ Daemon.snapIndex d' = Daemon.snapIndex d)
  \/ (Daemon.appliedIndex d' = i /\ Daemon.snapIndex d' = i).
Proof.
  unfold Daemon.publishSnapshotFile, Daemon.confState.
  repeat break_match; simpl; auto.
Qed.

Lemma publishSnapshot_indices (snap : RaftSnapshot) (d : Daemon.daemon W) :
  let d' := snd (Daemon.publishSnapshot snap d) in
  (Daemon.appliedIndex d' = Daemon.appliedIndex d
     /\ Daemon.snapIndex d' = Daemon.snapIndex d)
  \/ (Daemon.snapIndex d' = Daemon.appliedIndex d').
Proof.
  unfold Daemon.publishSnapshot.
  repeat break_match; simpl; auto.
  match goal with
  | |- context [Daemon.publishSnapshotFile ?sf ?d0] =>
      destruct (publishSnapshotFile_indices sf d0) as [[Ha Hs]|[Ha Hs]]
  end; simpl in *; [left | right]; intuition congruence.
Qed.

Lemma publishReplicate_indices (ent : Entry) (d : Daemon.daemon W) :
  Daemon.appliedIndex (Daemon.publishReplicate ent d) = Daemon.appliedIndex d
  /\ Daemon.snapIndex (Daemon.publishReplicate ent d) = Daemon.snapIndex d.
Proof.
  unfold Daemon.publishReplicate. repeat break_match; simpl; auto.
Qed.

Lemma confState_indices (cs : option ConfState) (d : Daemon.daemon W) :
  Daemon.appliedIndex (snd (Daemon.confState cs d)) = Daemon.appliedIndex d
  /\ Daemon.snapIndex (snd (Daemon.confState cs d)) = Daemon.snapIndex d.
Proof. destruct cs; simpl; auto. Qed.

Lemma publishConfChange_indices (ent : Entry) (d : Daemon.daemon W) :
  Daemon.appliedIndex (Daemon.publishConfChange ent d) = Daemon.appliedIndex d
  /\ Daemon.snapIndex (Daemon.publishConfChange ent d) = Daemon.snapIndex d.
Proof.
  unfold Daemon.publishConfChange.
  repeat break_match; simpl; auto.
  match goal with
  | Hc : Daemon.confState ?cs ?d0 = (_, _) |- _ =>
      pose proof (confState_indices cs d0) as Hi; rewrite Hc in Hi
  end.
  exact Hi.
Qed.

Lemma publishCommitted_step_indices (d : Daemon.daemon W) (ent : Entry) :
  Daemon.appliedIndex (Daemon.publishCommitted_step d ent) = ent_Index ent
  /\ Daemon.snapIndex (Daemon.publishCommitted_step d ent) = Daemon.snapIndex d.
Proof.
  unfold Daemon.publishCommitted_step. simpl. split; [reflexivity|].
  destruct (Daemon.is_EntryConfChange (ent_Type ent));
    destruct (Daemon.is_EntryNormal (ent_Type ent) && (0 <? length (ent_Data ent))%nat);
    rewrite ?(proj2 (publishConfChange_indices _ _)),
            ?(proj2 (publishReplicate_indices _ _));
    reflexivity.
Qed.

Lemma publishCommitted_indices (ents : list Entry) (d : Daemon.daemon W) :
  Daemon.ascending_from (Daemon.appliedIndex d) ents ->
  let d' := Daemon.publishCommitted ents d in
  Daemon.appliedIndex d <= Daemon.appliedIndex d'
  /\ Daemon.snapIndex d' = Daemon.snapIndex d.
Proof.
  unfold Daemon.publishCommitted. revert d.
  induction ents as [|e ents IH]; intros d Hasc; simpl; [split; [lia | reflexivity]|].
  destruct Hasc as [Hlt Hasc].
  destruct (publishCommitted_step_indices d e) as [Ha Hs].
  specialize (IH (Daemon.publishCommitted_step d e)).
  rewrite Ha in IH. destruct (IH Hasc) as [IHa IHs].
  rewrite IHs, Hs. split; [lia | reflexivity].
Qed.

Lemma step_preserves (d d' : Daemon.daemon W) :
  Daemon.step d d' ->
  Daemon.snapIndex d <= Daemon.appliedIndex d ->
  Daemon.snapIndex d' <= Daemon.appliedIndex d'.
Proof.
  intros Hstep Hinv. destruct Hstep as [d|d snap|d sf|d ents Hasc].
  - destruct (CreateSnapshot_indices d) as [Ha [Hs|Hs]]; simpl in *; lia.
  - destruct (publishSnapshot_indices snap d) as [[Ha Hs]|Hs]; simpl in *; lia.
  - destruct (publishSnapshotFile_indices sf d) as [[Ha Hs]|[Ha Hs]]; simpl in *; lia.
  - destruct (publishCommitted_indices ents d Hasc) as [Ha Hs]; simpl in *; lia.
Qed.

End daemon_indices.

(** C3: in every state the daemon reaches from [New] by CreateSnapshot,
    publishSnapshot, publishSnapshotFile and the publishing of committed
    entries (ascending, above the applied index), snapIndex is at most
    appliedIndex. CreateSnapshot sets snapIndex to the applied index it
    read at its start and publishSnapshotFile sets both to the index of
    the snapshot ([CreateSnapshot_indices], [publishSnapshotFile_indices]). *)
Theorem snapIndex_le_appliedIndex {W : Type} `{!Daemon.Collaborators W}
    (d : Daemon.daemon W) :
  Daemon.reachable d -> Daemon.snapIndex d <= Daemon.appliedIndex d.
Proof.
  induction 1 as [interval w | d d' _ IH Hstep].
  - simpl. lia.
  - exact (step_preserves d d' Hstep IH).
Qed.

Lemma snapIndex_le_appliedIndex_witness :
  Daemon.snapIndex Examples.after_snapshot
    <= Daemon.appliedIndex Examples.after_snapshot.
Proof.
  apply (snapIndex_le_appliedIndex Examples.after_snapshot).
  unfold Examples.after_snapshot.
  assert (R0 : Daemon.reachable Examples.fresh) by apply Daemon.reachable_New.
  assert (R1 : Daemon.reachable
                 (Daemon.publishCommitted (Examples.entries 0 3) Examples.fresh)).
  { apply (Daemon.reachable_step _ _ R0), Daemon.step_publishCommitted.
    vm_compute. repeat split. }
  assert (R2 : Daemon.reachable
                 (snd (Daemon.CreateSnapshot
                         (Daemon.publishCommitted (Examples.entries 0 3) Examples.fresh)))).
  { apply (Daemon.reachable_step _ _ R1), Daemon.step_CreateSnapshot. }
  apply (Daemon.reachable_step _ _ R2), Daemon.step_publishCommitted.
  vm_compute. repeat split.
Defined.

Example after_snapshot_indices :
  Daemon.snapIndex Examples.after_snapshot = 3
  /\ Daemon.appliedIndex Examples.after_snapshot = 5.
Proof. split; reflexivity. Qed.

(** C10: when appliedIndex equals snapIndex at the start, CreateSnapshot
    returns what the cache answers to Snapshot() and the daemon is as
    before: the counters, the stored ConfState and the world of the
    collaborators, so no FSM snapshot was taken, no file written and the
    cache not compacted. *)
Theorem CreateSnapshot_up_to_date {W : Type} `{!Daemon.Collaborators W}
    (d : Daemon.daemon W) :
  Daemon.appliedIndex d = Daemon.snapIndex d ->
  Daemon.CreateSnapshot d = (Daemon.cache_Snapshot (Daemon.world d), d).
Proof.
  intros Heq. unfold Daemon.CreateSnapshot.
  rewrite Heq, Z.eqb_refl. reflexivity.
Qed.

Lemma CreateSnapshot_up_to_date_witness :
  Daemon.CreateSnapshot Examples.up_to_date
  = (Daemon.cache_Snapshot (Daemon.world Examples.up_to_date), Examples.up_to_date).
Proof.
  apply (CreateSnapshot_up_to_date Examples.up_to_date).
  reflexivity.
Defined.

(** The calls the logging collaborators saw: the first CreateSnapshot
    (applied 3, snapshot 0) takes the FSM snapshot, writes the file and
    compacts; the second (applied 3, snapshot 3) adds no call. *)
Example CreateSnapshot_calls :
  let calls d := List.filter (fun c => match c with
                                       | Examples.CallFsmApply
                                       | Examples.CallBroadcast _ => false
                                       | _ => true
                                       end)
                        (Examples.lw_calls (Daemon.world d)) in
  calls Examples.up_to_date
    = [ Examples.CallFsmSnapshot; Examples.CallCacheCreateSnapshot 3;
        Examples.CallSnapshotterWrite 3; Examples.CallStorageSaveSnapshot 3;
        Examples.CallCacheCompact 1 ]
  /\ calls (snd (Daemon.CreateSnapshot Examples.up_to_date))
     = calls Examples.up_to_date
  /\ fst (Daemon.CreateSnapshot Examples.up_to_date)
     = (Examples.snapshot_at 3 None, None).
Proof. vm_compute. repeat split. Qed.

(** ** Bytes and big-endian integers *)

Example crc64_check_value :
  CRC64.update 0 [x31; x32; x33; x34; x35; x36; x37; x38; x39]
  = 0x995DC9BBDF1939FA.
Proof. vm_compute. reflexivity. Qed.

Lemma byte_to_Z_range b : 0 <= byte_to_Z b < 256.
Proof. unfold byte_to_Z. pose proof (Byte.to_N_bounded b). lia. Qed.

Lemma byte_to_of_Z z : byte_to_Z (byte_of_Z z) = z mod 256.
Proof.
  unfold byte_to_Z, byte_of_Z.
  assert (Hr : 0 <= z mod 256 < 256) by (apply Z.mod_pos_bound; lia).
  destruct (Byte.of_N (Z.to_N (z mod 256))) as [b|] eqn:E.
  - simpl. apply Byte.to_of_N in E. rewrite E. lia.
  - apply Byte.of_N_None_iff in E. lia.
Qed.

Lemma lor_shiftl_byte a b : 0 <= b < 256 -> Z.lor (Z.shiftl a 8) b = a * 256 + b.
Proof.
  intros Hb. rewrite Z.shiftl_mul_pow2 by lia. change (2 ^ 8) with 256.
  symmetry. apply Z.add_nocarry_lor.
  apply Z.bits_inj'. intros n Hn. rewrite Z.land_spec, Z.bits_0.
  destruct (Z.lt_ge_cases n 8).
  - replace (a * 256) with (a * 2 ^ 8) by reflexivity.
    rewrite Z.mul_pow2_bits_low by lia. reflexivity.
  - replace b with (b mod 2 ^ 8) by (apply Z.mod_small; simpl; lia).
    rewrite Z.mod_pow2_bits_high by lia. apply andb_false_r.
Qed.

Lemma Uint64_PutUint64 v : 0 <= v < 2 ^ 64 -> Uint64 (PutUint64 v) = v.
Proof.
  intros Hv. unfold Uint64, PutUint64. cbn [map fold_left].
  rewrite !lor_shiftl_byte by apply byte_to_Z_range.
  rewrite !byte_to_of_Z, !Z.shiftr_div_pow2 by lia.
  cbn [Z.mul Pos.mul Z.pow Z.pow_pos Pos.iter].
  Z.div_mod_to_equations; lia.
Qed.

Lemma length_PutUint64 v : length (PutUint64 v) = 8%nat.
Proof. reflexivity. Qed.

Lemma to_int64_small z : 0 <= z < 2 ^ 63 -> to_int64 z = z.
Proof.
  intros Hz. unfold to_int64, wrap64.
  rewrite Z.mod_small by lia.
  destruct (Z.ltb_spec z (2 ^ 63)); lia.
Qed.

Lemma wrap64_small z : 0 <= z < 2 ^ 64 -> wrap64 z = z.
Proof. intros Hz. unfold wrap64. now rewrite Z.mod_small. Qed.

Lemma bytes_eqb_eq a b : bytes_eqb a b = true <-> a = b.
Proof.
  revert b. induction a as [|x a IH]; intros [|y b]; simpl;
    try (split; congruence).
  rewrite andb_true_iff, IH. split.
  - intros [Hx ->]. now rewrite (Byte.byte_dec_bl _ _ Hx).
  - intros H. inversion H; subst. split; [apply Byte.byte_dec_lb|]; reflexivity.
Qed.

(** ** Snapshot files *)

Lemma ReadAt_at (file a b c : list byte) (n off : Z) :
  file = a ++ b ++ c ->
  n = Z.of_nat (length b) ->
  off = Z.of_nat (length a) ->
  Disk.ReadAt file n off = (b, None).
Proof.
  intros -> -> ->. unfold Disk.ReadAt.
  destruct (Z.ltb_spec (Z.of_nat (length a)) 0); [lia|].
  rewrite !Nat2Z.id, drop_app_length, take_app_length.
  destruct (Z.ltb_spec (Z.of_nat (length b)) (Z.of_nat (length b))); [lia|].
  reflexivity.
Qed.

(** What [decodeSnapshot] does on a file laid out as payload, trailer,
    length of the trailer. *)
Lemma decodeSnapshot_layout (Unmarshal : list byte -> res Disk.SnapshotTrailer)
    (fs : gmap string (list byte)) (path : string) (payload buf : list byte) :
  fs !! path = Some (payload ++ buf ++ PutUint64 (Z.of_nat (length buf))) ->
  Z.of_nat (length buf) <= Disk.maxAlloc ->
  Z.of_nat (length payload) + Z.of_nat (length buf) + 8 < 2 ^ 63 ->
  Disk.decodeSnapshot Unmarshal Disk.no_read_faults fs path =
  match Unmarshal buf with
  | Err e => Err e
  | Panic => Panic
  | Ok trailer =>
      if negb (bytes_eqb (Disk.tr_CRC trailer) (CRC64.Sum payload))
      then Err ErrCRCMismatch
      else Ok (Disk.mkSnapshot (Disk.tr_Snapshot trailer) (Disk.tr_Members trailer)
                               (mkReader payload None))
  end.
Proof.
  intros Hfs Hbuf Hsize. unfold Disk.decodeSnapshot. rewrite Hfs.
  cbn [Disk.rf_stat Disk.rf_copy Disk.no_read_faults].
  assert (Hmax : Disk.maxAlloc = 2 ^ 48) by reflexivity.
  set (bsize := PutUint64 (Z.of_nat (length buf))).
  assert (Hu : Uint64 bsize = Z.of_nat (length buf))
    by (apply Uint64_PutUint64; lia).
  set (file := payload ++ buf ++ bsize).
  assert (Hlen : Z.of_nat (length file)
                 = Z.of_nat (length payload) + Z.of_nat (length buf) + 8).
  { unfold file. rewrite !length_app. unfold bsize. rewrite length_PutUint64. lia. }
  assert (Heod : to_int64 (Z.of_nat (length file)
                           - to_int64 (wrap64 (Uint64 bsize + 8)))
                 = Z.of_nat (length payload)).
  { rewrite Hu, Hlen.
    rewrite (wrap64_small (Z.of_nat (length buf) + 8)) by lia.
    rewrite (to_int64_small (Z.of_nat (length buf) + 8)) by lia.
    rewrite to_int64_small by lia. lia. }
  rewrite (ReadAt_at file (payload ++ buf) bsize [] 8 (Z.of_nat (length file) - 8)).
  2: { unfold file. now rewrite app_nil_r, app_assoc. }
  2: { reflexivity. }
  2: { rewrite Hlen, length_app. lia. }
  cbv beta iota zeta.
  rewrite !Heod, !Hu.
  destruct (Z.ltb_spec Disk.maxAlloc (Z.of_nat (length buf))); [lia|].
  rewrite (ReadAt_at file payload buf bsize _ _ eq_refl eq_refl eq_refl).
  rewrite Nat2Z.id. unfold file. rewrite take_app_length.
  reflexivity.
Qed.

Example example_codec_roundtrip :
  Examples.example_Marshal (Disk.trailer_of Examples.example_snapshot)
    = Ok Examples.example_buf
  /\ Examples.example_Unmarshal Examples.example_buf
    = Ok (Disk.trailer_of Examples.example_snapshot).
Proof. split; vm_compute; reflexivity. Qed.

(** C1: when the source of the payload reads to its end, the trailer
    marshals to [buf] and [buf] unmarshals to that trailer, and the sizes
    fit a slice and a file offset, then with no failing call
    [encodeSnapshot] succeeds and writes payload, trailer, big-endian
    length of the trailer; [decodeSnapshot] of that path succeeds with
    the same raw metadata, the same members and a reader that yields the
    payload bytes and then ends. *)
Theorem encodeSnapshot_decodeSnapshot_roundtrip
    (Marshal : Disk.SnapshotTrailer -> res (list byte))
    (Unmarshal : list byte -> res Disk.SnapshotTrailer)
    (fs : gmap string (list byte)) (path : string) (s : Disk.Snapshot)
    (buf : list byte) :
  r_err (Disk.Data s) = None ->
  Marshal (Disk.trailer_of s) = Ok buf ->
  Unmarshal buf = Ok (Disk.trailer_of s) ->
  Z.of_nat (length buf) <= Disk.maxAlloc ->
  Z.of_nat (length (r_bytes (Disk.Data s))) + Z.of_nat (length buf) + 8 < 2 ^ 63 ->
  exists fs' s',
    Disk.encodeSnapshot Marshal Disk.no_write_faults fs path s = (Ok tt, fs')
    /\ fs' !! path = Some (r_bytes (Disk.Data s) ++ buf
                           ++ PutUint64 (Z.of_nat (length buf)))
    /\ Disk.decodeSnapshot Unmarshal Disk.no_read_faults fs' path = Ok s'
    /\ Disk.Raw s' = Disk.Raw s
    /\ Disk.Members s' = Disk.Members s
    /\ Disk.ReadAll (Disk.Data s') = (r_bytes (Disk.Data s), None).
Proof.
  intros Hsrc Hm Hu Hbuf Hsize.
  assert (Hmax : Disk.maxAlloc = 2 ^ 48) by reflexivity.
  set (file := r_bytes (Disk.Data s) ++ buf ++ PutUint64 (Z.of_nat (length buf))).
  exists (<[path := file]> fs),
         (Disk.mkSnapshot (Disk.Raw s) (Disk.Members s)
                          (mkReader (r_bytes (Disk.Data s)) None)).
  assert (Hlook : <[path := file]> fs !! path = Some file)
    by apply lookup_insert_eq.
  split; [|split; [exact Hlook|split; [|repeat split]]].
  - unfold Disk.encodeSnapshot. cbn [Disk.no_write_faults Disk.wf_create
      Disk.wf_copy Disk.wf_trailer Disk.wf_size Disk.wf_flush Disk.wf_fsync
      Disk.first_error].
    rewrite Hsrc. fold (Disk.trailer_of s). rewrite Hm.
    rewrite wrap64_small by lia. reflexivity.
  - rewrite (decodeSnapshot_layout Unmarshal _ path _ buf Hlook Hbuf Hsize).
    rewrite Hu. cbn [Disk.trailer_of Disk.tr_CRC Disk.tr_Snapshot Disk.tr_Members].
    rewrite (proj2 (bytes_eqb_eq _ _) eq_refl). reflexivity.
Qed.

Lemma encodeSnapshot_decodeSnapshot_roundtrip_witness :
  exists fs' s',
    Disk.encodeSnapshot Examples.example_Marshal Disk.no_write_faults ∅
      Examples.example_path Examples.example_snapshot = (Ok tt, fs')
    /\ fs' !! Examples.example_path
       = Some ([x72; x61; x66; x74] ++ Examples.example_buf
               ++ PutUint64 (Z.of_nat (length Examples.example_buf)))
    /\ Disk.decodeSnapshot Examples.example_Unmarshal Disk.no_read_faults fs'
         Examples.example_path = Ok s'
    /\ Disk.Raw s' = Disk.Raw Examples.example_snapshot
    /\ Disk.Members s' = Disk.Members Examples.example_snapshot
    /\ Disk.ReadAll (Disk.Data s') = ([x72; x61; x66; x74], None).
Proof.
  apply (encodeSnapshot_decodeSnapshot_roundtrip
           Examples.example_Marshal Examples.example_Unmarshal ∅
           Examples.example_path Examples.example_snapshot Examples.example_buf).
  - reflexivity.
  - vm_compute. reflexivity.
  - vm_compute. reflexivity.
  - vm_compute. discriminate.
  - vm_compute. reflexivity.
Defined.

(** C2: on a file laid out as payload, trailer, length of the trailer,
    whose trailer unmarshals and records a CRC other than the CRC64
    (ECMA) of the payload, [decodeSnapshot] returns ErrCRCMismatch, and
    so no snapshot. *)
Theorem decodeSnapshot_crc_mismatch
    (Unmarshal : list byte -> res Disk.SnapshotTrailer)
    (fs : gmap string (list byte)) (path : string)
    (payload buf : list byte) (trailer : Disk.SnapshotTrailer) :
  fs !! path = Some (payload ++ buf ++ PutUint64 (Z.of_nat (length buf))) ->
  Z.of_nat (length buf) <= Disk.maxAlloc ->
  Z.of_nat (length payload) + Z.of_nat (length buf) + 8 < 2 ^ 63 ->
  Unmarshal buf = Ok trailer ->
  Disk.tr_CRC trailer <> CRC64.Sum payload ->
  Disk.decodeSnapshot Unmarshal Disk.no_read_faults fs path = Err ErrCRCMismatch.
Proof.
  intros Hfs Hbuf Hsize Hu Hcrc.
  rewrite (decodeSnapshot_layout Unmarshal fs path payload buf Hfs Hbuf Hsize), Hu.
  destruct (bytes_eqb (Disk.tr_CRC trailer) (CRC64.Sum payload)) eqn:E;
    [|reflexivity].
  apply bytes_eqb_eq in E. contradiction.
Qed.

Lemma decodeSnapshot_crc_mismatch_witness :
  Disk.decodeSnapshot Examples.example_Unmarshal Disk.no_read_faults
    Examples.corrupted_fs Examples.example_path = Err ErrCRCMismatch.
Proof.
  apply (decodeSnapshot_crc_mismatch Examples.example_Unmarshal
           Examples.corrupted_fs Examples.example_path
           Examples.corrupted_payload Examples.example_buf
           (Disk.trailer_of Examples.example_snapshot)).
  - apply lookup_singleton_eq.
  - vm_compute. discriminate.
  - vm_compute. reflexivity.
  - vm_compute. reflexivity.
  - vm_compute. discriminate.
Defined.

(** Once the file is created, no return of [encodeSnapshot] removes it:
    after an error the path still names a file, holding what had reached
    it. *)
Lemma encodeSnapshot_error_keeps_file
    (Marshal : Disk.SnapshotTrailer -> res (list byte))
    (wf : Disk.WriteFaults) (fs : gmap string (list byte)) (path : string)
    (s : Disk.Snapshot) (e : error) (fs' : gmap string (list byte)) :
  Disk.wf_create wf = None ->
  Disk.encodeSnapshot Marshal wf fs path s = (Err e, fs') ->
  is_Some (fs' !! path).
Proof.
  unfold Disk.encodeSnapshot. intros -> H.
  repeat match type of H with
         | context [match ?x with _ => _ end] => destruct x
         end;
    inversion H; subst; rewrite lookup_insert_eq; eauto.
Qed.

(** C8 at a failing input: the source of the payload fails during the
    copy, nothing else does; [encodeSnapshot] returns that error and the
    path names a (here empty) file afterwards. *)
Theorem encodeSnapshot_copy_error_leaves_file :
  exists fs',
    Disk.encodeSnapshot Examples.example_Marshal Disk.no_write_faults ∅
      Examples.example_path Examples.failing_snapshot
    = (Err (ErrExternal "read: input/output error"), fs')
    /\ (∅ : gmap string (list byte)) !! Examples.example_path = None
    /\ fs' !! Examples.example_path = Some [].
Proof.
  eexists. split; [reflexivity|]. split; [reflexivity|].
  apply lookup_insert_eq.
Qed.

(** The earlier [encodeSnapshot] of the same file does remove the file:
    after any error past its creation the path names no file. *)
Lemma blocks_encodeSnapshot_error_removes_file
    (header_Marshal : list byte -> res (list byte))
    (snap_Marshal : RaftSnapshot -> res (list byte))
    (pool_Marshal : list RawMember -> res (list byte))
    (faults : DiskBlocks.wstep -> option error)
    (fs : gmap string (list byte)) (path : string) (s : Daemon.SnapshotFile)
    (e : error) (fs' : gmap string (list byte)) :
  DiskBlocks.encodeSnapshot header_Marshal snap_Marshal pool_Marshal
    None faults fs path s = (Err e, fs') ->
  fs' !! path = None.
Proof.
  unfold DiskBlocks.encodeSnapshot. intros H.
  repeat match type of H with
         | context [match ?x with _ => _ end] => destruct x
         end;
    inversion H; subst; apply lookup_delete_eq.
Qed.

(** ** Cluster facade: the other operations *)

Lemma precondition_Ok_Forall (c : Cluster.cluster)
    (fns : list (Cluster.cluster -> res unit)) (u : unit) :
  Cluster.precondition c fns = Ok u -> Forall (fun f => f c = Ok tt) fns.
Proof.
  induction fns as [|f fns IH]; simpl; intros H; [constructor|].
  destruct (f c) as [[]| |] eqn:Hf; try discriminate.
  constructor; auto.
Qed.

Lemma joined_Ok (c : Cluster.cluster) :
  Cluster.joined c = Ok tt ->
  Cluster.Whoami c <> 0 /\ Cluster.d_started (Cluster.c_daemon c) = true.
Proof.
  unfold Cluster.joined, Cluster.Whoami, Cluster.daemon_Status.
  destruct (Cluster.d_started (Cluster.c_daemon c)); simpl.
  - destruct (Z.eqb_spec (st_ID (Cluster.d_status (Cluster.c_daemon c))) 0);
      [discriminate | auto].
  - discriminate.
Qed.

Lemma Members_not_removed (c : Cluster.cluster) (m : Member) :
  In m (Cluster.Members c) <->
  In m (Cluster.c_pool c) /\ MType m <> RemovedMember.
Proof.
  unfold Cluster.Members, Cluster.members. rewrite filter_In.
  split; intros [Hin Ht]; split; auto.
  - intros E. rewrite E in Ht. discriminate.
  - destruct (MemberType_eqb (MType m) RemovedMember) eqn:E; [|reflexivity].
    apply MemberType_eqb_eq in E. contradiction.
Qed.

Lemma eligible_iff (m : Member) :
  eligible m = true <-> ActiveSince m <> 0 /\ MType m <> LocalMember.
Proof.
  unfold eligible, Time.IsZero.
  destruct (Z.eqb_spec (ActiveSince m) 0); simpl.
  - split; [discriminate | intros [H _]; contradiction].
  - destruct (MemberType_eqb (MType m) LocalMember) eqn:E; simpl.
    + apply MemberType_eqb_eq in E. split; [discriminate | intros [_ H]; contradiction].
    + split; [|reflexivity]. intros _. split; [assumption|].
      intros E'. rewrite E' in E. discriminate.
Qed.

Lemma LongestActive_step_cases (longest : option Member) (t : Time.t) (x : Member) :
  Cluster.LongestActive_step (longest, t) x =
  if eligible x then
    match longest with
    | None => (Some x, t)
    | Some _ => if Time.Before (ActiveSince x) t then (Some x, ActiveSince x)
                else (longest, t)
    end
  else (longest, t).
Proof.
  unfold Cluster.LongestActive_step, eligible.
  destruct (Time.IsZero (ActiveSince x) || MemberType_eqb (MType x) LocalMember);
    reflexivity.
Qed.

Lemma LongestActive_fold_sound (l : list Member) (longest : option Member)
    (t : Time.t) :
  match fst (fold_left Cluster.LongestActive_step l (longest, t)) with
  | Some m => longest = Some m \/ (In m l /\ eligible m = true)
  | None => longest = None /\ Forall (fun m => eligible m = false) l
  end.
Proof.
  revert longest t. induction l as [|x l IH]; intros longest t.
  - simpl. destruct longest; auto.
  - cbn [fold_left]. rewrite LongestActive_step_cases.
    destruct (eligible x) eqn:Ex.
    + assert (Hx : forall t', match fst (fold_left Cluster.LongestActive_step l (Some x, t')) with
                              | Some m => In m (x :: l) /\ eligible m = true
                              | None => False
                              end).
      { intros t'. specialize (IH (Some x) t').
        destruct (fst (fold_left _ l _)) as [m|].
        - destruct IH as [IH|[IH1 IH2]]; [inversion IH; subst|]; simpl; auto.
        - destruct IH; discriminate. }
      destruct longest as [m0|].
      * destruct (Time.Before (ActiveSince x) t).
        -- specialize (Hx (ActiveSince x)).
           destruct (fst (fold_left _ l _)); [auto | contradiction].
        -- specialize (IH (Some m0) t).
           destruct (fst (fold_left _ l _)) as [m|].
           ++ destruct IH as [IH|[IH1 IH2]]; simpl; auto.
           ++ destruct IH; discriminate.
      * specialize (Hx t).
        destruct (fst (fold_left _ l _)); [auto | contradiction].
    + specialize (IH longest t).
      destruct (fst (fold_left _ l _)) as [m|].
      * destruct IH as [IH|[IH1 IH2]]; simpl; auto.
      * destruct IH; auto.
Qed.

Lemma LongestActive_result (c : Cluster.cluster) :
  match Cluster.LongestActive c with
  | Ok m => In m (Cluster.c_pool c) /\ MType m <> RemovedMember
            /\ MType m <> LocalMember /\ ActiveSince m <> 0
  | Err e => e = ErrNoLongestActive
             /\ Forall (fun m => eligible m = false) (Cluster.Members c)
  | Panic => False
  end.
Proof.
  unfold Cluster.LongestActive.
  pose proof (LongestActive_fold_sound (Cluster.Members c) None Time.zero) as H.
  destruct (fst (fold_left _ _ _)) as [m|].
  - destruct H as [H|[Hin Hel]]; [discriminate|].
    apply Members_not_removed in Hin. apply eligible_iff in Hel. intuition.
  - destruct H as [_ H]. auto.
Qed.

(** X1. What LongestActive returns is a member of the pool that is not
    removed, not of the local type and has ActiveSince set; it returns
    its error exactly when the pool has no such member, and never
    panics. *)
Theorem LongestActive_sound (c : Cluster.cluster) :
  match Cluster.LongestActive c with
  | Ok m => In m (Cluster.c_pool c) /\ MType m <> RemovedMember
            /\ MType m <> LocalMember /\ ActiveSince m <> 0
  | Err e => e = ErrNoLongestActive
             /\ Forall (fun m => eligible m = false) (Cluster.Members c)
  | Panic => False
  end.
Proof. exact (LongestActive_result c). Qed.

(** X2. Whenever StepDown asks the daemon to transfer leadership, this
    node is joined and is the leader, the cluster is available, the one
    call made is for a member of the pool that is not removed, not of the
    local type and has ActiveSince set. *)
Theorem StepDown_transfers_to_active_peer (e : Admin.env) (c : Cluster.cluster)
    (r : res unit) (calls : list Admin.call) :
  Admin.StepDown e c = (r, calls) ->
  calls <> [] ->
  Cluster.Whoami c <> 0
  /\ Cluster.Whoami c = Cluster.Leader c
  /\ Cluster.IsAvailable c = true
  /\ exists m, calls = [Admin.CallTransferLeadership (ID m)]
               /\ In m (Cluster.c_pool c) /\ MType m <> RemovedMember
               /\ MType m <> LocalMember /\ ActiveSince m <> 0.
Proof.
  unfold Admin.StepDown. intros H Hcalls.
  destruct (Cluster.precondition c Admin.StepDown_chain) as [u| |] eqn:Hp;
    try (inversion H; subst; contradiction).
  apply precondition_Ok_Forall in Hp.
  inversion Hp as [|? ? Hj Hp1]; subst. inversion Hp1 as [|? ? Hl Hp2]; subst.
  inversion Hp2 as [|? ? Ha _]; subst.
  destruct (joined_Ok c Hj) as [Hw Hs].
  pose proof (LongestActive_result c) as Hla.
  destruct (Cluster.LongestActive c) as [m| |];
    try (inversion H; subst; contradiction).
  unfold Admin.daemon_TransferLeadership in H. rewrite Hs in H.
  inversion H; subst.
  repeat split; auto.
  - unfold Cluster.notLeader in Hl.
    destruct (Z.eqb_spec (Cluster.Whoami c) (Cluster.Leader c)); [assumption|discriminate].
  - unfold Cluster.available in Ha.
    destruct (Cluster.IsAvailable c); [reflexivity|discriminate].
  - exists m. intuition.
Qed.

Lemma StepDown_transfers_to_active_peer_witness :
  exists m, [Admin.CallTransferLeadership 2] = [Admin.CallTransferLeadership (ID m)]
            /\ In m (Cluster.c_pool AdminExamples.leading)
            /\ MType m <> RemovedMember
            /\ MType m <> LocalMember /\ ActiveSince m <> 0.
Proof.
  apply (StepDown_transfers_to_active_peer AdminExamples.plain_env
           AdminExamples.leading (Ok tt) [Admin.CallTransferLeadership 2]).
  - reflexivity.
  - discriminate.
Defined.

Lemma AddressInUse_loop_zero (ms : list Member) (addr : string) :
  Cluster.AddressInUse_loop ms addr = 0 ->
  Forall (fun m => ID m <> 0) ms ->
  Forall (fun m => Address m <> addr) ms.
Proof.
  induction ms as [|m ms IH]; simpl; intros H Hid; [constructor|].
  inversion Hid as [|? ? Hm Hms]; subst.
  destruct (String.eqb_spec (Address m) addr) as [E|E]; [contradiction|].
  constructor; auto.
Qed.

Lemma AddressInUse_loop_found (ms : list Member) (addr : string) :
  Cluster.AddressInUse_loop ms addr <> 0 ->
  exists m, In m ms /\ Address m = addr
            /\ ID m = Cluster.AddressInUse_loop ms addr.
Proof.
  induction ms as [|m ms IH]; simpl; intros H; [contradiction|].
  destruct (String.eqb_spec (Address m) addr) as [E|E].
  - exists m. auto.
  - destruct (IH H) as [m' [Hin Hm']]. exists m'. auto.
Qed.

Lemma pool_Get_Some_In (p : list Member) (id : Z) (m : Member) :
  Cluster.pool_Get p id = Some m -> In m p /\ ID m = id.
Proof.
  unfold Cluster.pool_Get. intros H. apply find_some in H.
  destruct H as [Hin He]. split; [assumption|]. now apply Z.eqb_eq.
Qed.

Lemma pool_Get_None (p : list Member) (id : Z) :
  Cluster.pool_Get p id = None -> Forall (fun m => ID m <> id) p.
Proof.
  unfold Cluster.pool_Get. intros H. apply List.Forall_forall. intros m Hin E.
  pose proof (find_none _ _ H m Hin) as Hn. simpl in Hn.
  apply Z.eqb_neq in Hn. contradiction.
Qed.

Lemma propose_started (c : Cluster.cluster) (raw : RawMember) (t : ConfChangeType)
    (r : res unit) (c' : Cluster.cluster) :
  Admin.propose c raw t = (r, c') ->
  Cluster.d_started (Cluster.c_daemon c) = true ->
  Cluster.proposed c' = Cluster.proposed c ++ [(raw, t)].
Proof.
  unfold Admin.propose, Cluster.daemon_ProposeConfChange. intros H Hs.
  rewrite Hs in H. destruct (Cluster.d_propose _ _ _); inversion H; reflexivity.
Qed.

(** X3. Whenever AddMember hands a conf change to the daemon, no member
    of the pool, removed or not, has the id asked for, the one change
    handed over carries the address and type asked for, the id asked for
    or, when it is None, the next id of the pool, and is AddLearnerNode
    for the two learner types and AddNode otherwise; and when no pool
    member has the id None, no member that is not removed has that
    address. *)
Theorem AddMember_proposes_fresh (e : Admin.env) (c : Cluster.cluster)
    (raw : RawMember) (r : res unit) (c' : Cluster.cluster) :
  Admin.AddMember e c raw = (r, c') ->
  Cluster.proposed c' <> Cluster.proposed c ->
  Forall (fun m => ID m <> raw_ID raw) (Cluster.c_pool c)
  /\ Cluster.proposed c' =
       Cluster.proposed c ++
       [(mkRaw (if raw_ID raw =? 0 then Admin.e_NextID e else raw_ID raw)
               (raw_Address raw) (raw_Type raw),
         if Admin.is_learner_type (raw_Type raw)
         then ConfChangeAddLearnerNode else ConfChangeAddNode)]
  /\ (Forall (fun m => ID m <> 0) (Cluster.c_pool c) ->
      Forall (fun m => Address m <> raw_Address raw) (Cluster.Members c)).
Proof.
  unfold Admin.AddMember. intros H Hne.
  destruct (Cluster.precondition c (Admin.AddMember_chain raw)) as [u| |] eqn:Hp;
    try (inversion H; subst; contradiction).
  apply precondition_Ok_Forall in Hp.
  inversion Hp as [|? ? Hj Hp1]; subst. inversion Hp1 as [|? ? Haddr Hp2]; subst.
  inversion Hp2 as [|? ? Hid _]; subst.
  destruct (joined_Ok c Hj) as [_ Hs].
  assert (Hget : Cluster.pool_Get (Cluster.c_pool c) (raw_ID raw) = None).
  { unfold Cluster.idInUse, Cluster.GetMemebr in Hid.
    destruct (Cluster.pool_Get _ _); [discriminate | reflexivity]. }
  split; [now apply pool_Get_None|]. split.
  - apply propose_started in H; [|assumption]. rewrite H.
    unfold None_id. destruct (raw_ID raw =? 0); destruct raw; reflexivity.
  - intros Hnz.
    assert (Hz : Cluster.AddressInUse c (raw_Address raw) = 0).
    { unfold Cluster.addressInUse in Haddr.
      destruct (Z.eqb_spec (Cluster.AddressInUse c (raw_Address raw)) 0) as [E|E];
        [assumption|].
      destruct (Z.eqb_spec (Cluster.AddressInUse c (raw_Address raw)) (raw_ID raw))
        as [E'|E']; [|simpl in Haddr; discriminate].
      destruct (AddressInUse_loop_found _ _ E) as [m [Hin [_ Hm]]].
      apply Members_not_removed in Hin. destruct Hin as [Hin _].
      pose proof (pool_Get_None _ _ Hget) as Hall.
      rewrite List.Forall_forall in Hall. specialize (Hall m Hin).
      unfold Cluster.AddressInUse in E'. congruence. }
    apply AddressInUse_loop_zero; [exact Hz|].
    apply List.Forall_forall. intros m Hin. apply Members_not_removed in Hin.
    rewrite List.Forall_forall in Hnz. apply Hnz. tauto.
Qed.

Lemma AddMember_proposes_fresh_witness :
  Cluster.proposed (snd (Admin.AddMember AdminExamples.plain_env AdminExamples.leading
                           (mkRaw 0 ":5055" LearnerMember)))
  = [(mkRaw 9 ":5055" LearnerMember, ConfChangeAddLearnerNode)].
Proof.
  apply (AddMember_proposes_fresh AdminExamples.plain_env AdminExamples.leading
           (mkRaw 0 ":5055" LearnerMember) (Ok tt)
           (snd (Admin.AddMember AdminExamples.plain_env AdminExamples.leading
                   (mkRaw 0 ":5055" LearnerMember)))).
  - reflexivity.
  - vm_compute. discriminate.
Defined.

(** X4. Whenever UpdateMember hands a conf change to the daemon, it is
    one UpdateNode change for a member of the pool, with the id and
    address asked for and the type the pool has for that member, whatever
    type was asked for; and the address is that of no other member that
    AddressInUse finds. *)
Theorem UpdateMember_keeps_type (c : Cluster.cluster) (raw : RawMember)
    (r : res unit) (c' : Cluster.cluster) :
  Admin.UpdateMember c raw = (r, c') ->
  Cluster.proposed c' <> Cluster.proposed c ->
  exists mem,
    In mem (Cluster.c_pool c) /\ ID mem = raw_ID raw
    /\ Cluster.proposed c' =
         Cluster.proposed c ++
         [(mkRaw (raw_ID raw) (raw_Address raw) (MType mem), ConfChangeUpdateNode)]
    /\ (Cluster.AddressInUse c (raw_Address raw) = 0
        \/ Cluster.AddressInUse c (raw_Address raw) = raw_ID raw).
Proof.
  unfold Admin.UpdateMember. intros H Hne.
  destruct (Cluster.precondition c (Admin.UpdateMember_chain raw)) as [u| |] eqn:Hp;
    try (inversion H; subst; contradiction).
  apply precondition_Ok_Forall in Hp.
  inversion Hp as [|? ? Hj Hp1]; subst. inversion Hp1 as [|? ? _ Hp2]; subst.
  inversion Hp2 as [|? ? Haddr _]; subst.
  destruct (joined_Ok c Hj) as [_ Hs].
  unfold Cluster.GetMemebr in H.
  destruct (Cluster.pool_Get (Cluster.c_pool c) (raw_ID raw)) as [mem|] eqn:Hg;
    [|inversion H; subst; contradiction].
  destruct (pool_Get_Some_In _ _ _ Hg) as [Hin Hid].
  exists mem. repeat split; auto.
  - now apply propose_started in H.
  - unfold Cluster.addressInUse in Haddr.
    destruct (Z.eqb_spec (Cluster.AddressInUse c (raw_Address raw)) 0); [auto|].
    destruct (Z.eqb_spec (Cluster.AddressInUse c (raw_Address raw)) (raw_ID raw));
      [auto | simpl in Haddr; discriminate].
Qed.

Lemma UpdateMember_keeps_type_witness :
  exists mem,
    In mem (Cluster.c_pool AdminExamples.leading) /\ ID mem = 4
    /\ Cluster.proposed (snd (Admin.UpdateMember AdminExamples.leading
                                (mkRaw 4 ":6000" VoterMember)))
       = [(mkRaw 4 ":6000" (MType mem), ConfChangeUpdateNode)]
    /\ (Cluster.AddressInUse AdminExamples.leading ":6000" = 0
        \/ Cluster.AddressInUse AdminExamples.leading ":6000" = 4).
Proof.
  apply (UpdateMember_keeps_type AdminExamples.leading (mkRaw 4 ":6000" VoterMember)
           (Ok tt)
           (snd (Admin.UpdateMember AdminExamples.leading (mkRaw 4 ":6000" VoterMember)))).
  - reflexivity.
  - vm_compute. discriminate.
Defined.

(** X5. Leave on the node that is the leader (or on a node that knows no
    leader and has not joined) is refused: it returns an error and hands
    nothing to the daemon. *)
Theorem Leave_refused_on_leader (c : Cluster.cluster) :
  Cluster.Whoami c = Cluster.Leader c ->
  exists e, Admin.Leave c = (Err e, c).
Proof.
  intros Hl. unfold Admin.Leave, Cluster.RemoveMember, Cluster.RemoveMember_chain.
  cbn [Cluster.precondition].
  unfold Cluster.joined. destruct (Cluster.Whoami c =? 0); [eauto|].
  unfold Cluster.notMember, Cluster.IsMember.
  destruct (Cluster.pool_Get (Cluster.c_pool c) (Cluster.Whoami c)) as [mem|] eqn:Hg;
    [|simpl; eauto].
  cbn [negb]. unfold Cluster.memberRemoved, Cluster.IsMemberRemoved, Cluster.GetMemebr.
  rewrite Hg.
  destruct (MemberType_eqb (MType mem) RemovedMember); [eauto|].
  unfold Cluster.rmLeader. rewrite <- Hl, Z.eqb_refl. eauto.
Qed.

Lemma Leave_refused_on_leader_witness :
  exists e, Admin.Leave AdminExamples.leading = (Err e, AdminExamples.leading).
Proof.
  apply (Leave_refused_on_leader AdminExamples.leading). reflexivity.
Defined.

(** X6. promoteMember hands a conf change to the local daemon only for a
    pool member of one of the two learner types, on a node that has the
    replication progress (the leader), when the member's Match is not
    below 0.9 times this node's; the change is AddNode for the member
    re-typed as voter, and no rpc is made. On a node without the progress
    nothing is handed to the local daemon, and a forwarded call makes no
    rpc either. *)
Theorem promoteMember_proposes_caught_up_learner (e : Admin.env)
    (c : Cluster.cluster) (id : Z) (forwarded : bool)
    (r : Admin.pres) (c' : Cluster.cluster) (calls : list Admin.call) :
  Admin.promoteMember e c id forwarded = (r, c', calls) ->
  (st_Progress (Cluster.d_status (Cluster.c_daemon c)) = None ->
     c' = c /\ (forwarded = true -> calls = []))
  /\ (Cluster.proposed c' <> Cluster.proposed c ->
      exists mem progress,
        In mem (Cluster.c_pool c) /\ ID mem = id
        /\ (MType mem = LearnerMember \/ MType mem = LocalLearnerMember)
        /\ st_Progress (Cluster.d_status (Cluster.c_daemon c)) = Some progress
        /\ Float64.lt_mul09 (Match progress id)
             (Match progress (st_ID (Cluster.d_status (Cluster.c_daemon c)))) = false
        /\ Cluster.proposed c' =
             Cluster.proposed c ++
             [(mkRaw (ID mem) (Address mem) VoterMember, ConfChangeAddNode)]
        /\ calls = []).
Proof.
  unfold Admin.promoteMember. intros H.
  destruct (Cluster.precondition c (Admin.promoteMember_chain id)) as [u| |] eqn:Hp;
    try (inversion H; subst; split; [auto | intros; contradiction]).
  apply precondition_Ok_Forall in Hp.
  inversion Hp as [|? ? Hj _]; subst.
  destruct (joined_Ok c Hj) as [_ Hs].
  unfold Cluster.GetMemebr in H.
  destruct (Cluster.pool_Get (Cluster.c_pool c) id) as [mem|] eqn:Hg;
    [|inversion H; subst; split; [auto | intros; contradiction]].
  destruct (pool_Get_Some_In _ _ _ Hg) as [Hin Hid].
  destruct (MemberType_eqb (MType mem) LocalLearnerMember
            || MemberType_eqb (MType mem) LearnerMember) eqn:Ht; cbn [negb] in H;
    [|inversion H; subst; split; [auto | intros; contradiction]].
  unfold Cluster.daemon_Status in H. rewrite Hs in H.
  destruct (st_Progress (Cluster.d_status (Cluster.c_daemon c))) as [progress|] eqn:Hpr.
  - split; [discriminate|]. intros Hne.
    destruct (Float64.lt_mul09 (Match progress id) _) eqn:Hlt;
      [inversion H; subst; contradiction|].
    destruct (Admin.propose c _ ConfChangeAddNode) as [r0 c0] eqn:Hprop.
    inversion H; subst.
    exists mem, progress. repeat split; auto.
    + apply orb_true_iff in Ht.
      destruct Ht as [Ht|Ht]; apply MemberType_eqb_eq in Ht; auto.
    + now apply propose_started in Hprop.
  - split; [intros _|].
    + destruct forwarded; [inversion H; subst; auto|].
      destruct (Cluster.pool_Get (Cluster.c_pool c)
                 (st_Lead (Cluster.d_status (Cluster.c_daemon c)))) as [lmem|];
        [|inversion H; subst; split; [reflexivity | discriminate]].
      destruct (Admin.e_dial e (Address lmem));
        [inversion H; subst; split; [reflexivity | discriminate]|].
      destruct (Admin.e_rpc_promotes e); inversion H; subst;
        split; try reflexivity; discriminate.
    + intros Hne. exfalso.
      destruct forwarded; [inversion H; subst; contradiction|].
      destruct (Cluster.pool_Get (Cluster.c_pool c)
                 (st_Lead (Cluster.d_status (Cluster.c_daemon c)))) as [lmem|];
        [|inversion H; subst; contradiction].
      destruct (Admin.e_dial e (Address lmem)); [inversion H; subst; contradiction|].
      destruct (Admin.e_rpc_promotes e); inversion H; subst; contradiction.
Qed.

Lemma promoteMember_proposes_caught_up_learner_witness :
  exists mem progress,
    In mem (Cluster.c_pool AdminExamples.leading) /\ ID mem = 4
    /\ (MType mem = LearnerMember \/ MType mem = LocalLearnerMember)
    /\ st_Progress (Cluster.d_status (Cluster.c_daemon AdminExamples.leading))
       = Some progress
    /\ Float64.lt_mul09 (Match progress 4)
         (Match progress
            (st_ID (Cluster.d_status (Cluster.c_daemon AdminExamples.leading))))
       = false
    /\ Cluster.proposed
         (snd (fst (Admin.promoteMember AdminExamples.plain_env
                      AdminExamples.leading 4 false)))
       = Cluster.proposed AdminExamples.leading ++
         [(mkRaw (ID mem) (Address mem) VoterMember, ConfChangeAddNode)]
    /\ @nil Admin.call = [].
Proof.
  apply (proj2 (promoteMember_proposes_caught_up_learner AdminExamples.plain_env
                  AdminExamples.leading 4 false Admin.POk
                  (snd (fst (Admin.promoteMember AdminExamples.plain_env
                               AdminExamples.leading 4 false)))
                  [] eq_refl)).
  vm_compute. discriminate.
Defined.

(** ** Remote peer: queue, send loop and drain *)

(** X7. Send puts the message at the tail of the queue only when it
    returns nil, and then the queue had room; with any other outcome the
    queue is as before. With the context already cancelled it returns
    that error and never enqueues, and a queue within its capacity stays
    within it. *)
Theorem Send_queue_discipline (s : Remote.sched) (r : Remote.remote)
    (msg : Message) (x : res unit) (r' : Remote.remote) :
  Remote.Send s r msg = (x, r') ->
  ((x = Ok tt /\ Remote.msgc r' = Remote.msgc r ++ [msg]
    /\ (length (Remote.msgc r) < Remote.msgc_cap r)%nat)
   \/ (x <> Ok tt /\ Remote.msgc r' = Remote.msgc r))
  /\ (forall e, Remote.ctx_err r = Some e -> x = Err e)
  /\ ((length (Remote.msgc r) <= Remote.msgc_cap r)%nat ->
      (length (Remote.msgc r') <= Remote.msgc_cap r')%nat)
  /\ Remote.msgc_cap r' = Remote.msgc_cap r.
Proof.
  unfold Remote.Send, Remote.Send_body. intros H.
  destruct (Remote.ctx_err r) as [e0|] eqn:Ec.
  - inversion H; subst. simpl. split; [|split; [|split]]; auto.
    intros e He. congruence.
  - assert (Hcases :
      ((x = Ok tt /\ Remote.msgc r' = Remote.msgc r ++ [msg]
        /\ (length (Remote.msgc r) < Remote.msgc_cap r)%nat)
       \/ (x <> Ok tt /\ Remote.msgc r' = Remote.msgc r))
      /\ Remote.msgc_cap r' = Remote.msgc_cap r).
    { destruct (Remote.cancel_between s); simpl in H; rewrite ?Ec in H;
        destruct (Remote.msgc_closed r); simpl in H;
        destruct (Nat.ltb_spec (length (Remote.msgc r)) (Remote.msgc_cap r));
        try destruct (Remote.pick_send s);
        inversion H; subst; simpl; (split; [|reflexivity]);
        first [ left; repeat split; auto; lia
              | right; split; [discriminate | reflexivity] ]. }
    destruct Hcases as [Hc Hcap]. split; [|split; [|split]]; auto.
    + intros e He. discriminate.
    + intros Hle. rewrite Hcap.
      destruct Hc as [(_ & Hq & Hlt)|(_ & Hq)]; rewrite Hq;
        [rewrite length_app; simpl; lia | assumption].
Qed.

Lemma Send_queue_discipline_witness :
  Remote.msgc_cap (snd (Remote.Send Examples.quiet Examples.full_remote
                          (mkMessage MsgApp 7 1)))
  = Remote.msgc_cap Examples.full_remote.
Proof.
  apply (Send_queue_discipline Examples.quiet Examples.full_remote
           (mkMessage MsgApp 7 1)
           (fst (Remote.Send Examples.quiet Examples.full_remote (mkMessage MsgApp 7 1)))).
  reflexivity.
Defined.

Lemma report_calls_report (r : Remote.remote) (m0 : Message) (e0 : option error)
    (m : Message) (e : option error) :
  Remote.report_calls (Remote.report r m0 e0) m e = Remote.report_calls r m e.
Proof. reflexivity. Qed.

Lemma reports_of_report (rt : Message -> option error) (r : Remote.remote)
    (m0 : Message) (e0 : option error) (l : list Message) :
  RemoteLoop.reports_of rt (Remote.report r m0 e0) l = RemoteLoop.reports_of rt r l.
Proof. reflexivity. Qed.


Lemma setStatus_ok (now : Time.t) (s : RemoteLoop.status) (act : bool) :
  now <> 0 ->
  RemoteLoop.status_ok s ->
  RemoteLoop.status_ok (RemoteLoop.setStatus now s act)
  /\ RemoteLoop.active (RemoteLoop.setStatus now s act) = act
  /\ (RemoteLoop.active s = true -> act = true ->
      RemoteLoop.setStatus now s act = s).
Proof.
  unfold RemoteLoop.status_ok, RemoteLoop.setStatus, Time.IsZero.
  intros Hnow Hs. destruct s as [a t]; simpl in *.
  destruct a, act; simpl; repeat split; auto; try discriminate.
  destruct (Z.eqb_spec now 0); [contradiction | reflexivity].
Qed.

Lemma last_succeeded_cons (rt : Message -> option error) (p : Message * Time.t)
    (q : list (Message * Time.t)) (b : bool) :
  RemoteLoop.last_succeeded rt (p :: q) b
  = RemoteLoop.last_succeeded rt q (RemoteLoop.is_nil (rt (fst p))).
Proof.
  unfold RemoteLoop.last_succeeded. destruct p as [m t].
  destruct q as [|p' q]; [reflexivity|].
  change (last ((m, t) :: p' :: q)) with (last (p' :: q)).
  destruct (last (p' :: q)) as [[m' t']|] eqn:E; [reflexivity|].
  apply last_None in E. discriminate.
Qed.

(** X8. Over any sequence of messages received by [run] (clock readings
    after the zero instant), every message is reported once, in the order
    received, as [report] prescribes for the outcome of its round trip;
    afterwards the peer is active exactly when the last round trip
    succeeded, ActiveSince is set exactly when it is active, and a peer
    that was active and saw only successes keeps its ActiveSince. *)
Theorem run_loop_reports_and_status (rt : Message -> option error)
    (q : list (Message * Time.t)) (r : Remote.remote) (s : RemoteLoop.status) :
  Forall (fun p => snd p <> 0) q ->
  RemoteLoop.status_ok s ->
  RemoteLoop.status_ok (snd (RemoteLoop.run_loop rt q r s))
  /\ RemoteLoop.active (snd (RemoteLoop.run_loop rt q r s))
     = RemoteLoop.last_succeeded rt q (RemoteLoop.active s)
  /\ Remote.reported (fst (RemoteLoop.run_loop rt q r s))
     = Remote.reported r ++ RemoteLoop.reports_of rt r (map fst q)
  /\ (RemoteLoop.active s = true ->
      Forall (fun p => rt (fst p) = None) q ->
      snd (RemoteLoop.run_loop rt q r s) = s).
Proof.
  intros Hq. revert r s.
  induction Hq as [|[m now] q Hnow _ IH]; intros r s Hs.
  - simpl. unfold RemoteLoop.last_succeeded. simpl.
    rewrite app_nil_r. auto.
  - cbn [RemoteLoop.run_loop RemoteLoop.stream].
    destruct (setStatus_ok now s (RemoteLoop.is_nil (rt m)) Hnow Hs)
      as (Hok & Hact & Hkeep).
    specialize (IH (Remote.report r m (rt m))
                   (RemoteLoop.setStatus now s (RemoteLoop.is_nil (rt m))) Hok).
    destruct IH as (IH1 & IH2 & IH3 & IH4).
    split; [exact IH1|]. split; [|split].
    + rewrite last_succeeded_cons, IH2, Hact. reflexivity.
    + rewrite IH3, reports_of_report. unfold Remote.report at 1. simpl.
      unfold RemoteLoop.reports_of. simpl. now rewrite app_assoc.
    + intros Ha Hall. inversion Hall as [|? ? Hm Hall']; subst. simpl in Hm.
      rewrite Hm in *. simpl in *. rewrite (Hkeep Ha eq_refl) in *.
      now apply IH4.
Qed.

Lemma run_loop_reports_and_status_witness :
  RemoteLoop.status_ok
    (snd (RemoteLoop.run_loop RemoteExamples.flaky RemoteExamples.arrivals
            RemoteExamples.idle (RemoteLoop.mkStatus false 0)))
  /\ RemoteLoop.active
       (snd (RemoteLoop.run_loop RemoteExamples.flaky RemoteExamples.arrivals
               RemoteExamples.idle (RemoteLoop.mkStatus false 0)))
     = RemoteLoop.last_succeeded RemoteExamples.flaky RemoteExamples.arrivals false
  /\ Remote.reported
       (fst (RemoteLoop.run_loop RemoteExamples.flaky RemoteExamples.arrivals
               RemoteExamples.idle (RemoteLoop.mkStatus false 0)))
     = [] ++ RemoteLoop.reports_of RemoteExamples.flaky RemoteExamples.idle
               (map fst RemoteExamples.arrivals)
  /\ (false = true ->
      Forall (fun p => RemoteExamples.flaky (fst p) = None) RemoteExamples.arrivals ->
      snd (RemoteLoop.run_loop RemoteExamples.flaky RemoteExamples.arrivals
             RemoteExamples.idle (RemoteLoop.mkStatus false 0))
      = RemoteLoop.mkStatus false 0).
Proof.
  apply (run_loop_reports_and_status RemoteExamples.flaky RemoteExamples.arrivals
           RemoteExamples.idle (RemoteLoop.mkStatus false 0)).
  - repeat constructor; simpl; lia.
  - reflexivity.
Defined.

Example run_loop_example :
  RemoteLoop.run_loop RemoteExamples.flaky RemoteExamples.arrivals
    RemoteExamples.idle (RemoteLoop.mkStatus false 0)
  = (Remote.with_reported RemoteExamples.idle
       [Remote.ReportUnreachable 7; Remote.ReportSnapshot 7 SnapshotFinish],
     RemoteLoop.mkStatus true 60).
Proof. reflexivity. Qed.




Example drain_example :
  RemoteLoop.drain RemoteExamples.flaky 10 RemoteExamples.waiting
  = (Some (ErrExternal "rpc: unavailable"),
     Remote.mkRemote 7 None [mkMessage MsgApp 7 1] 4 true
       [Remote.ReportSnapshot 7 SnapshotFinish; Remote.ReportUnreachable 7]).
Proof. reflexivity. Qed.

(** ** Daemon: snapshots, committed entries, notifications *)

Section daemon_more.
Context {W : Type} `{!Daemon.Collaborators W}.

Ltac break_match_d :=
  match goal with
  | |- context [match ?x with _ => _ end] => destruct x eqn:?
  end.

Lemma CreateSnapshot_result (d : Daemon.daemon W) (snap : RaftSnapshot)
    (err : option error) (d' : Daemon.daemon W) :
  Daemon.CreateSnapshot d = ((snap, err), d') ->
  match err with
  | None => Daemon.snapIndex d' = Daemon.appliedIndex d
  | Some _ => Daemon.snapIndex d' = Daemon.snapIndex d
  end
  /\ Daemon.appliedIndex d' = Daemon.appliedIndex d.
Proof.
  unfold Daemon.CreateSnapshot, Daemon.confState. intros Hcs.
  destruct (Z.eqb_spec (Daemon.appliedIndex d) (Daemon.snapIndex d)) as [E|E].
  - destruct (Daemon.cache_Snapshot (Daemon.world d)) as [sp [e|]];
      inversion Hcs; subst; split; congruence.
  - repeat match type of Hcs with
           | context [match ?x with _ => _ end] => destruct x eqn:?
           end;
      inversion Hcs; subst; simpl; auto.
Qed.

End daemon_more.

(** X10. CreateSnapshot never moves appliedIndex. When it returns an
    error snapIndex is as before; when it returns nil snapIndex equals
    appliedIndex, and calling it again then returns what the cache holds
    and changes nothing. *)
Theorem CreateSnapshot_then_up_to_date {W : Type} {C : Daemon.Collaborators W}
    (d : Daemon.daemon W) (snap : RaftSnapshot) (err : option error)
    (d' : Daemon.daemon W) :
  Daemon.CreateSnapshot d = ((snap, err), d') ->
  Daemon.appliedIndex d' = Daemon.appliedIndex d
  /\ (err <> None -> Daemon.snapIndex d' = Daemon.snapIndex d)
  /\ (err = None ->
      Daemon.snapIndex d' = Daemon.appliedIndex d'
      /\ Daemon.CreateSnapshot d' = (Daemon.cache_Snapshot (Daemon.world d'), d')).
Proof.
  intros H. pose proof (CreateSnapshot_result d snap err d' H) as [Hs Ha].
  split; [exact Ha|]. split.
  - intros Hne. destruct err; [exact Hs | contradiction].
  - intros ->. assert (Heq : Daemon.snapIndex d' = Daemon.appliedIndex d') by congruence.
    split; [exact Heq|].
    unfold Daemon.CreateSnapshot. rewrite Heq, Z.eqb_refl. reflexivity.
Qed.

Lemma CreateSnapshot_then_up_to_date_witness :
  Daemon.appliedIndex Examples.up_to_date
  = Daemon.appliedIndex (Daemon.publishCommitted (Examples.entries 0 3) Examples.fresh)
  /\ (@None error <> None ->
      Daemon.snapIndex Examples.up_to_date
      = Daemon.snapIndex (Daemon.publishCommitted (Examples.entries 0 3) Examples.fresh))
  /\ (@None error = None ->
      Daemon.snapIndex Examples.up_to_date = Daemon.appliedIndex Examples.up_to_date
      /\ Daemon.CreateSnapshot Examples.up_to_date
         = (Daemon.cache_Snapshot (Daemon.world Examples.up_to_date),
            Examples.up_to_date)).
Proof.
  apply (CreateSnapshot_then_up_to_date
           (Daemon.publishCommitted (Examples.entries 0 3) Examples.fresh)
           (Examples.snapshot_at 3 None) None Examples.up_to_date).
  reflexivity.
Defined.



Example publishSnapshot_example :
  let d := snd (Daemon.publishSnapshot (Examples.snapshot_at 9 None) Examples.up_to_date) in
  Daemon.appliedIndex d = 9 /\ Daemon.snapIndex d = 9
  /\ Daemon.publishSnapshot (Examples.snapshot_at 2 None) Examples.up_to_date
     = (Some (ErrSnapIndex 2 3), Examples.up_to_date).
Proof. repeat split. Qed.

(** X12. After publishCommitted appliedIndex is the index of the last
    entry handed over, whatever the entries hold and however their
    publishing fares, and is unchanged for no entries; snapIndex is
    untouched. *)
Theorem publishCommitted_applied_last {W : Type} {C : Daemon.Collaborators W}
    (ents : list Entry) (d : Daemon.daemon W) :
  Daemon.appliedIndex (Daemon.publishCommitted ents d)
  = match last ents with
    | Some e => ent_Index e
    | None => Daemon.appliedIndex d
    end
  /\ Daemon.snapIndex (Daemon.publishCommitted ents d) = Daemon.snapIndex d.
Proof.
  unfold Daemon.publishCommitted. revert d.
  induction ents as [|e ents IH]; intros d; [split; reflexivity|].
  cbn [fold_left]. destruct (IH (Daemon.publishCommitted_step d e)) as [IHa IHs].
  destruct (publishCommitted_step_indices d e) as [Ha Hs].
  rewrite IHa, IHs, Hs. split; [|reflexivity].
  destruct ents as [|e' ents]; [simpl; exact Ha|].
  change (last (e :: e' :: ents)) with (last (e' :: ents)).
  destruct (last (e' :: ents)) eqn:E; [reflexivity|].
  apply last_None in E. discriminate.
Qed.

(** ** Daemon: notifications of applied indices *)

Section notifications.
Context {W : Type} {C : Daemon.Collaborators W}.

Lemma publishAppliedIndices_loop_seqZ (n : nat) (i bound : Z) (w : W) :
  0 <= i -> bound < 2 ^ 64 -> (Z.to_nat (bound - i) <= n)%nat ->
  DaemonLoop.publishAppliedIndices_loop n i bound w
  = DaemonLoop.broadcast_all (seqZ i (bound - i)) w.
Proof.
  revert i w. induction n as [|n IH]; intros i w Hi Hb Hn.
  - simpl. assert (bound - i <= 0) by lia.
    rewrite seqZ_nil by lia. reflexivity.
  - simpl. destruct (Z.ltb_spec i bound) as [Hlt|Hge].
    + rewrite (seqZ_cons i (bound - i)) by lia.
      unfold DaemonLoop.broadcast_all. cbn [fold_left].
      unfold wrap64. rewrite Z.mod_small by lia.
      rewrite IH by lia. unfold DaemonLoop.broadcast_all.
      replace (Z.succ i) with (i + 1) by lia.
      replace (Z.pred (bound - i)) with (bound - (i + 1)) by lia.
      reflexivity.
    + rewrite seqZ_nil by lia. reflexivity.
Qed.

End notifications.

(** X13. publishAppliedIndices(prev, curr) broadcasts nil once for every
    index above prev up to curr, in ascending order, and nothing when
    curr is not above prev (both below the largest uint64); when curr is
    the largest uint64 the bound curr+1 wraps to zero and nothing is
    broadcast at all. *)
Theorem publishAppliedIndices_range {W : Type} {C : Daemon.Collaborators W}
    (prev curr : Z) (w : W) :
  0 <= prev < 2 ^ 64 - 1 ->
  0 <= curr < 2 ^ 64 ->
  DaemonLoop.publishAppliedIndices prev curr w
  = if curr =? 2 ^ 64 - 1 then w
    else DaemonLoop.broadcast_all (seqZ (prev + 1) (curr - prev)) w.
Proof.
  intros Hp Hc. unfold DaemonLoop.publishAppliedIndices, wrap64.
  rewrite (Z.mod_small (prev + 1)) by lia.
  destruct (Z.eqb_spec curr (2 ^ 64 - 1)) as [E|E].
  - subst curr. replace (2 ^ 64 - 1 + 1) with (2 ^ 64) by lia.
    rewrite Z.mod_same by lia.
    replace (Z.to_nat (0 - (prev + 1))) with O by lia. reflexivity.
  - rewrite (Z.mod_small (curr + 1)) by lia.
    rewrite publishAppliedIndices_loop_seqZ by lia.
    f_equal. f_equal. lia.
Qed.

Lemma publishAppliedIndices_range_witness :
  DaemonLoop.publishAppliedIndices 3 6 (Examples.mkLogWorld emptySnapshot [])
  = if 6 =? 2 ^ 64 - 1 then Examples.mkLogWorld emptySnapshot []
    else DaemonLoop.broadcast_all (seqZ (3 + 1) (6 - 3))
           (Examples.mkLogWorld emptySnapshot []).
Proof.
  apply (publishAppliedIndices_range 3 6 (Examples.mkLogWorld emptySnapshot [])); lia.
Defined.

Example publishAppliedIndices_example :
  Examples.lw_calls
    (DaemonLoop.publishAppliedIndices 3 6 (Examples.mkLogWorld emptySnapshot []))
  = [Examples.CallBroadcast 4; Examples.CallBroadcast 5; Examples.CallBroadcast 6]
  /\ Examples.lw_calls
       (DaemonLoop.publishAppliedIndices 3 (2 ^ 64 - 1)
          (Examples.mkLogWorld emptySnapshot []))
     = [].
Proof. split; vm_compute; reflexivity. Qed.

(** ** Daemon: intake, shutdown and sending *)

Lemma Push_all_split (ms : list Message) :
  forall (st : DaemonLoop.intake) (p : DaemonLoop.pushed) (st' : DaemonLoop.intake),
  DaemonLoop.Push_all ms st = (p, st') ->
  exists done rest,
    ms = done ++ rest
    /\ DaemonLoop.proposec st'
       = DaemonLoop.proposec st
         ++ List.filter (fun m => DaemonLoop.is_MsgProp (msg_Type m)) done
    /\ DaemonLoop.msgc st'
       = DaemonLoop.msgc st
         ++ List.filter (fun m => negb (DaemonLoop.is_MsgProp (msg_Type m))) done
    /\ DaemonLoop.started st' = DaemonLoop.started st
    /\ (p = DaemonLoop.PushOk -> rest = [])
    /\ (DaemonLoop.started st = false -> done = []).
Proof.
  induction ms as [|m ms IH]; intros st p st' H; simpl in H.
  - inversion H; subst. exists [], []. simpl. rewrite !app_nil_r.
    repeat split; auto.
  - destruct (DaemonLoop.Push m st) as [pm st1] eqn:Hp.
    assert (Hcases :
      (pm = DaemonLoop.PushOk /\ DaemonLoop.started st = true
       /\ DaemonLoop.started st1 = true
       /\ DaemonLoop.proposec st1
          = DaemonLoop.proposec st
            ++ List.filter (fun m => DaemonLoop.is_MsgProp (msg_Type m)) [m]
       /\ DaemonLoop.msgc st1
          = DaemonLoop.msgc st
            ++ List.filter (fun m => negb (DaemonLoop.is_MsgProp (msg_Type m))) [m])
      \/ (pm <> DaemonLoop.PushOk /\ st1 = st)).
    { unfold DaemonLoop.Push in Hp. simpl.
      destruct (DaemonLoop.started st) eqn:Hs; simpl in Hp;
        [|inversion Hp; subst; right; split; [discriminate | reflexivity]].
      destruct (DaemonLoop.is_MsgProp (msg_Type m)); simpl;
        match type of Hp with
        | context [if ?b then _ else _] => destruct b
        end; inversion Hp; subst; simpl; rewrite ?app_nil_r;
        first [ left; repeat split; reflexivity
              | right; split; [discriminate | reflexivity] ]. }
    destruct Hcases as [(-> & Hs & Hs1 & Hpc & Hmc)|(Hne & ->)].
    + destruct (IH st1 p st' H) as (done & rest & -> & Hp' & Hm' & Hst & Hok & Hoff).
      exists (m :: done), rest. split; [reflexivity|].
      rewrite Hp', Hm', Hpc, Hmc, <- !app_assoc. simpl.
      destruct (DaemonLoop.is_MsgProp (msg_Type m)); simpl;
        rewrite ?app_nil_r; repeat split; auto; congruence.
    + destruct pm; [contradiction| |]; inversion H; subst;
        exists [], (m :: ms); simpl; rewrite !app_nil_r;
        repeat split; auto; discriminate.
Qed.

(** X14. Pushes of one caller lose and reorder nothing: after pushing a
    list of messages up to the first push that does not return nil, the
    proposals among the pushed messages are at the tail of proposec and
    the other messages at the tail of msgc, each in the order pushed;
    every message was pushed if the last push returned nil, and none if
    the daemon is not started. *)
Theorem Push_all_fifo (ms : list Message) (st : DaemonLoop.intake)
    (p : DaemonLoop.pushed) (st' : DaemonLoop.intake) :
  DaemonLoop.Push_all ms st = (p, st') ->
  exists done rest,
    ms = done ++ rest
    /\ DaemonLoop.proposec st'
       = DaemonLoop.proposec st
         ++ List.filter (fun m => DaemonLoop.is_MsgProp (msg_Type m)) done
    /\ DaemonLoop.msgc st'
       = DaemonLoop.msgc st
         ++ List.filter (fun m => negb (DaemonLoop.is_MsgProp (msg_Type m))) done
    /\ DaemonLoop.started st' = DaemonLoop.started st
    /\ (p = DaemonLoop.PushOk -> rest = [])
    /\ (DaemonLoop.started st = false -> done = []).
Proof. apply Push_all_split. Qed.

Lemma Push_all_fifo_witness :
  exists done rest,
    DaemonLoopExamples.burst = done ++ rest
    /\ DaemonLoop.proposec
         (snd (DaemonLoop.Push_all DaemonLoopExamples.burst DaemonLoopExamples.open_intake))
       = DaemonLoop.proposec DaemonLoopExamples.open_intake
         ++ List.filter (fun m => DaemonLoop.is_MsgProp (msg_Type m)) done
    /\ DaemonLoop.msgc
         (snd (DaemonLoop.Push_all DaemonLoopExamples.burst DaemonLoopExamples.open_intake))
       = DaemonLoop.msgc DaemonLoopExamples.open_intake
         ++ List.filter (fun m => negb (DaemonLoop.is_MsgProp (msg_Type m))) done
    /\ DaemonLoop.started
         (snd (DaemonLoop.Push_all DaemonLoopExamples.burst DaemonLoopExamples.open_intake))
       = DaemonLoop.started DaemonLoopExamples.open_intake
    /\ (DaemonLoop.PushOk = DaemonLoop.PushOk -> rest = [])
    /\ (DaemonLoop.started DaemonLoopExamples.open_intake = false -> done = []).
Proof.
  apply (Push_all_fifo DaemonLoopExamples.burst DaemonLoopExamples.open_intake
           DaemonLoop.PushOk
           (snd (DaemonLoop.Push_all DaemonLoopExamples.burst
                   DaemonLoopExamples.open_intake))).
  reflexivity.
Defined.

Lemma run_closers_prefix (fns : list (DaemonLoop.closed * option error)) :
  forall (done : list DaemonLoop.closed) (err : option error)
         (done' : list DaemonLoop.closed),
  DaemonLoop.run_closers fns done = (err, done') ->
  exists ran rest,
    fns = ran ++ rest /\ done' = done ++ map fst ran
    /\ match err with
       | None => rest = [] /\ Forall (fun f => snd f = None) ran
       | Some e => exists c pre, ran = pre ++ [(c, Some e)]
                                 /\ Forall (fun f => snd f = None) pre
       end.
Proof.
  induction fns as [|[c o] fns IH]; intros done err done' H; simpl in H.
  - inversion H; subst. exists [], []. simpl. rewrite app_nil_r. auto.
  - destruct o as [e|].
    + inversion H; subst. exists [(c, Some e)], fns. simpl.
      repeat split; auto. exists c, []. auto.
    + destruct (IH _ _ _ H) as (ran & rest & -> & -> & Herr).
      exists ((c, None) :: ran), rest. simpl. rewrite <- app_assoc. simpl.
      repeat split; auto.
      destruct err as [e|].
      * destruct Herr as (c' & pre & -> & Hpre).
        exists c', ((c, None) :: pre). auto.
      * destruct Herr as [-> Hall]. auto.
Qed.

(** X15. Close is idempotent and does not retry: after any Close the
    daemon is not started, and a second Close returns nil and shuts
    nothing more. On a started daemon the closers run in the fixed order
    and the first error ends the run, so when closing the msgbus fails
    the storage and the pool are never closed, and when closing the
    storage fails the pool is never closed. *)
Theorem Close_idempotent_first_error (k : DaemonLoop.closers)
    (l : DaemonLoop.lifecycle) (err : option error) (l' : DaemonLoop.lifecycle) :
  DaemonLoop.Close k l = (err, l') ->
  DaemonLoop.l_started l' = false
  /\ (forall k2, DaemonLoop.Close k2 l' = (None, l'))
  /\ (DaemonLoop.l_started l = true ->
      (err = None ->
         DaemonLoop.l_closed l' =
         DaemonLoop.l_closed l ++
         [ DaemonLoop.ClosedChannels; DaemonLoop.Cancelled; DaemonLoop.Waited;
           DaemonLoop.NodeStopped; DaemonLoop.MsgbusClosed;
           DaemonLoop.StorageClosed; DaemonLoop.PoolClosed ])
      /\ (forall e, DaemonLoop.msgbus_Clsoe k = Some e ->
          err = Some e
          /\ DaemonLoop.l_closed l' =
             DaemonLoop.l_closed l ++
             [ DaemonLoop.ClosedChannels; DaemonLoop.Cancelled; DaemonLoop.Waited;
               DaemonLoop.NodeStopped; DaemonLoop.MsgbusClosed ])
      /\ (forall e, DaemonLoop.msgbus_Clsoe k = None ->
          DaemonLoop.storage_Close k = Some e ->
          err = Some e
          /\ DaemonLoop.l_closed l' =
             DaemonLoop.l_closed l ++
             [ DaemonLoop.ClosedChannels; DaemonLoop.Cancelled; DaemonLoop.Waited;
               DaemonLoop.NodeStopped; DaemonLoop.MsgbusClosed;
               DaemonLoop.StorageClosed ])).
Proof.
  unfold DaemonLoop.Close. intros H.
  destruct (DaemonLoop.l_started l) eqn:Hs; simpl in H.
  - destruct k as [mb stc pc]; simpl in *.
    destruct mb as [e1|]; [|destruct stc as [e2|]; [|destruct pc as [e3|]]];
      inversion H; subst; simpl;
      (split; [reflexivity|]); (split; [intros k2; reflexivity|]); intros _;
      rewrite <- ?app_assoc; simpl;
      repeat split; intros; try discriminate; try congruence.
  - inversion H; subst. split; [exact Hs|]. split.
    + intros k2. now rewrite Hs.
    + intros Ht. discriminate.
Qed.

Lemma Close_idempotent_first_error_witness :
  fst (DaemonLoop.Close DaemonLoopExamples.failing_storage DaemonLoopExamples.running)
  = Some (ErrExternal "wal: close")
  /\ DaemonLoop.l_closed
       (snd (DaemonLoop.Close DaemonLoopExamples.failing_storage
               DaemonLoopExamples.running))
     = DaemonLoop.l_closed DaemonLoopExamples.running ++
       [ DaemonLoop.ClosedChannels; DaemonLoop.Cancelled; DaemonLoop.Waited;
         DaemonLoop.NodeStopped; DaemonLoop.MsgbusClosed; DaemonLoop.StorageClosed ].
Proof.
  destruct (Close_idempotent_first_error DaemonLoopExamples.failing_storage
              DaemonLoopExamples.running
              (fst (DaemonLoop.Close DaemonLoopExamples.failing_storage
                      DaemonLoopExamples.running))
              (snd (DaemonLoop.Close DaemonLoopExamples.failing_storage
                      DaemonLoopExamples.running))
              eq_refl) as (_ & _ & Hrun).
  destruct (Hrun eq_refl) as (_ & _ & Hst).
  exact (Hst (ErrExternal "wal: close") eq_refl eq_refl).
Defined.

Section sending.
Context {P : Type} (member_Send : P -> Message -> option error * P).

Lemma send_step_lookup (pool : gmap Z P) (m : Message) (id : Z) :
  DaemonLoop.send_step member_Send pool m !! id
  = (fun mem => if msg_To m =? id then snd (member_Send mem m) else mem)
      <$> (pool !! id).
Proof.
  unfold DaemonLoop.send_step.
  destruct (Z.eqb_spec (msg_To m) id) as [E|E].
  - subst id. destruct (pool !! msg_To m) as [mem|] eqn:Hl.
    + rewrite lookup_insert_eq. reflexivity.
    + rewrite Hl. reflexivity.
  - destruct (pool !! msg_To m) as [mem|] eqn:Hl.
    + rewrite lookup_insert_ne by assumption. now destruct (pool !! id).
    + now destruct (pool !! id).
Qed.

End sending.

(** X16. send hands every message to the Send of the member it is
    addressed to and drops the messages for unknown members: afterwards
    each member of the pool has seen exactly the messages addressed to
    it, in the order of the batch, whatever the other sends returned; no
    member is added to or removed from the pool. *)
Theorem send_per_member_in_order {P : Type}
    (member_Send : P -> Message -> option error * P)
    (msgs : list Message) (pool : gmap Z P) (id : Z) :
  DaemonLoop.send member_Send msgs pool !! id
  = DaemonLoop.sends_to member_Send id msgs <$> (pool !! id).
Proof.
  unfold DaemonLoop.send, DaemonLoop.sends_to. revert pool.
  induction msgs as [|m msgs IH]; intros pool.
  - simpl. now destruct (pool !! id).
  - cbn [fold_left List.filter]. rewrite IH, send_step_lookup.
    destruct (pool !! id) as [mem|]; [|reflexivity]. simpl.
    destruct (msg_To m =? id); reflexivity.
Qed.

Example send_example :
  let pool' := DaemonLoop.send DaemonLoopExamples.remote_Send
                 DaemonLoopExamples.outbound DaemonLoopExamples.peers in
  pool' !! 2 = Some (Remote.mkRemote 2 None
                       [mkMessage MsgApp 2 1; mkMessage MsgHeartbeat 2 1] 2 false [])
  /\ pool' !! 3 = Some (Remote.mkRemote 3 None [mkMessage MsgApp 3 1] 1 false
                          [Remote.ReportUnreachable 3])
  /\ pool' !! 9 = None.
Proof. vm_compute. repeat split. Qed.

(** ** Promotions: at most once *)

Lemma promotions_fold_promoted (rs_ID : Z) (progress : gmap Z Z)
    (inProgress : gset Z) (membs : list Member) :
  forall (l : list Member) (acc : Daemon.scan),
  (forall mem, In mem l -> In mem membs) ->
  Forall (promoted_from rs_ID progress inProgress membs) (Daemon.sc_promotions acc) ->
  Forall (promoted_from rs_ID progress inProgress membs)
    (Daemon.sc_promotions
       (fold_left (Daemon.promotions_step rs_ID progress inProgress) l acc)).
Proof.
  induction l as [|m l IH]; intros acc Hin Hacc; [exact Hacc|].
  cbn [fold_left]. apply IH; [intros mem Hm; apply Hin; now right|].
  unfold Daemon.promotions_step. cbn [Raw raw_Type raw_ID raw_Address].
  destruct (Daemon.is_Staging (MType m)) eqn:Hst; cbn [negb]; [|exact Hacc].
  destruct (bool_decide (ID m ∈ inProgress)) eqn:Hip; [exact Hacc|].
  destruct (Float64.lt_mul09 (Match progress (ID m)) (Match progress rs_ID)) eqn:Hlt;
    [exact Hacc|].
  cbn [Daemon.sc_promotions]. apply Forall_app. split; [exact Hacc|].
  constructor; [|constructor].
  split; [reflexivity|]. split.
  - simpl. now apply bool_decide_eq_false in Hip.
  - exists m. simpl. repeat split; auto.
    + apply Hin. now left.
    + now apply MemberType_eqb_eq in Hst.
Qed.

(** X17. Every member a promotions pass promotes is a staging member of
    the pool, re-typed as voter, that was not yet in the set of
    promotions in flight and whose Match is not below 0.9 times the
    leader's; the pass adds it to that set and removes nothing from it,
    so no later pass promotes it again, whatever became of the proposal. *)
Theorem promotions_promote_once (rs : Status) (membs : list Member)
    (inProgress : gset Z) (ps : list RawMember) (inProgress' : gset Z) :
  Daemon.promotions_pass rs membs inProgress = (ps, inProgress') ->
  inProgress ⊆ inProgress'
  /\ Forall (fun p => raw_ID p ∈ inProgress'
                      /\ exists progress, st_Progress rs = Some progress
                           /\ promoted_from (st_ID rs) progress inProgress membs p) ps
  /\ (forall rs2 membs2,
        Forall (fun p => raw_ID p ∉ inProgress')
               (fst (Daemon.promotions_pass rs2 membs2 inProgress'))).
Proof.
  intros H.
  assert (Hlater : forall (inP : gset Z) rs2 membs2,
             Forall (fun p => raw_ID p ∉ inP)
                    (fst (Daemon.promotions_pass rs2 membs2 inP))).
  { intros inP rs2 membs2. unfold Daemon.promotions_pass.
    destruct (st_Progress rs2) as [pr2|]; [|constructor].
    destruct (_ <? _)%nat; [constructor|]. simpl.
    unfold Daemon.promotions_scan.
    pose proof (promotions_fold_promoted (st_ID rs2) pr2 inP membs2 membs2
                  (Daemon.mkScan [] 0 0) (fun _ Hm => Hm) (List.Forall_nil _)) as Hall.
    apply List.Forall_forall. intros p Hp.
    rewrite List.Forall_forall in Hall.
    destruct (Hall p Hp) as (_ & Hn & _). exact Hn. }
  split; [|split; [|apply Hlater]].
  - unfold Daemon.promotions_pass in H.
    destruct (st_Progress rs); [|inversion H; subst; set_solver].
    destruct (_ <? _)%nat; inversion H; subst; set_solver.
  - unfold Daemon.promotions_pass in H.
    destruct (st_Progress rs) as [progress|]; [|inversion H; subst; constructor].
    destruct (_ <? _)%nat; inversion H; subst; [constructor|].
    unfold Daemon.promotions_scan.
    pose proof (promotions_fold_promoted (st_ID rs) progress inProgress membs membs
                  (Daemon.mkScan [] 0 0) (fun _ Hm => Hm) (List.Forall_nil _)) as Hall.
    set (ps := Daemon.sc_promotions _) in *.
    apply List.Forall_forall. intros p Hp. split.
    + apply elem_of_union. right. apply elem_of_list_to_set.
      apply list_elem_of_In. now apply in_map.
    + exists progress. split; [reflexivity|].
      rewrite List.Forall_forall in Hall. now apply Hall.
Qed.

Lemma promotions_promote_once_witness :
  (∅ : gset Z) ⊆ {[5]}
  /\ Forall (fun p => raw_ID p ∈ ({[5]} : gset Z)
                      /\ exists progress,
                           st_Progress Examples.leader_status = Some progress
                           /\ promoted_from (st_ID Examples.leader_status) progress ∅
                                (Examples.staging_pool true) p)
            [mkRaw 5 ":5052" VoterMember]
  /\ (forall rs2 membs2,
        Forall (fun p => raw_ID p ∉ ({[5]} : gset Z))
               (fst (Daemon.promotions_pass rs2 membs2 {[5]}))).
Proof.
  apply (promotions_promote_once Examples.leader_status (Examples.staging_pool true) ∅
           [mkRaw 5 ":5052" VoterMember] {[5]}).
  vm_compute. reflexivity.
Defined.

(** ** Snapshot files: what decoding accepts *)

Lemma Uint64_nonneg (b : list byte) : 0 <= Uint64 b.
Proof.
  unfold Uint64. assert (H : forall acc, 0 <= acc ->
    0 <= fold_left (fun acc x => Z.lor (Z.shiftl acc 8) (byte_to_Z x)) b acc).
  { induction b as [|x b IH]; intros acc Hacc; simpl; [assumption|].
    apply IH. apply Z.lor_nonneg. split.
    - apply Z.shiftl_nonneg. assumption.
    - apply byte_to_Z_range. }
  apply H. lia.
Qed.

Lemma to_int64_range z : - 2 ^ 63 <= z < 2 ^ 63 -> to_int64 z = z.
Proof.
  intros Hz. unfold to_int64, wrap64.
  destruct (Z.lt_ge_cases z 0).
  - replace (z mod 2 ^ 64) with (z + 2 ^ 64).
    + destruct (Z.ltb_spec (z + 2 ^ 64) (2 ^ 63)); lia.
    + apply Z.mod_unique with (q := -1); lia.
  - rewrite Z.mod_small by lia. destruct (Z.ltb_spec z (2 ^ 63)); lia.
Qed.

Lemma ReadAt_ok (file : list byte) (n off : Z) (chunk : list byte) :
  Disk.ReadAt file n off = (chunk, None) ->
  0 <= n ->
  0 <= off
  /\ chunk = take (Z.to_nat n) (drop (Z.to_nat off) file)
  /\ Z.of_nat (length chunk) = n.
Proof.
  unfold Disk.ReadAt. intros H Hn.
  destruct (Z.ltb_spec off 0); [discriminate|].
  destruct (Z.ltb_spec (Z.of_nat (length (take (Z.to_nat n) (drop (Z.to_nat off) file)))) n);
    [discriminate|].
  inversion H; subst. clear H.
  pose proof (length_take_le (drop (Z.to_nat off) file) (Z.to_nat n)) as Hle.
  rewrite length_take, length_drop in *.
  repeat split; try reflexivity; try lia.
Qed.


(** X18. Whatever the file, [decodeSnapshot] returns a snapshot only
    from a file laid out as payload, trailer, eight bytes holding the
    length of the trailer, whose trailer unmarshals and records the
    CRC64 of the payload; the snapshot carries the raw metadata and
    members of that trailer and a reader of exactly the payload. *)
Theorem decodeSnapshot_sound (Unmarshal : list byte -> res Disk.SnapshotTrailer)
    (rf : Disk.ReadFaults) (fs : gmap string (list byte)) (path : string)
    (file : list byte) (s : Disk.Snapshot) :
  fs !! path = Some file ->
  Z.of_nat (length file) < 2 ^ 63 ->
  Disk.decodeSnapshot Unmarshal rf fs path = Ok s ->
  exists buf bsize trailer,
    file = r_bytes (Disk.Data s) ++ buf ++ bsize
    /\ length bsize = 8%nat
    /\ Uint64 bsize = Z.of_nat (length buf)
    /\ Unmarshal buf = Ok trailer
    /\ Disk.tr_CRC trailer = CRC64.Sum (r_bytes (Disk.Data s))
    /\ Disk.Raw s = Disk.tr_Snapshot trailer
    /\ Disk.Members s = Disk.tr_Members trailer
    /\ r_err (Disk.Data s) = None.
Proof.
  intros Hfs Hsize H. unfold Disk.decodeSnapshot in H. rewrite Hfs in H.
  destruct (Disk.rf_stat rf); [discriminate|].
  destruct (Disk.ReadAt file 8 (Z.of_nat (length file) - 8)) as [bsize [e|]] eqn:Hr1;
    [destruct e; discriminate|].
  destruct (ReadAt_ok _ _ _ _ Hr1 ltac:(lia)) as (Hoff1 & Hb & Hblen).
  cbv zeta in H.
  pose proof (Uint64_nonneg bsize) as Hnn.
  assert (Hmax : Disk.maxAlloc = 2 ^ 48) by reflexivity.
  destruct (Z.ltb_spec Disk.maxAlloc (Uint64 bsize)) as [|Hsz]; [discriminate|].
  assert (Heod : to_int64 (Z.of_nat (length file)
                           - to_int64 (wrap64 (Uint64 bsize + 8)))
                 = Z.of_nat (length file) - (Uint64 bsize + 8)).
  { rewrite (wrap64_small (Uint64 bsize + 8)) by lia.
    rewrite (to_int64_small (Uint64 bsize + 8)) by lia.
    apply to_int64_range. lia. }
  rewrite !Heod in H.
  set (eod := Z.of_nat (length file) - (Uint64 bsize + 8)) in *.
  destruct (Disk.ReadAt file (Uint64 bsize) eod) as [buf [e|]] eqn:Hr2;
    [discriminate|].
  destruct (ReadAt_ok _ _ _ _ Hr2 Hnn) as (Hoff2 & Hbuf & Hbuflen).
  destruct (Unmarshal buf) as [trailer| |] eqn:Hu; try discriminate.
  destruct (Disk.rf_copy rf); [discriminate|].
  destruct (bytes_eqb (Disk.tr_CRC trailer) (CRC64.Sum (take (Z.to_nat eod) file)))
    eqn:Hcrc; [|discriminate].
  cbn [negb] in H. inversion H; subst s. clear H. cbn.
  apply bytes_eqb_eq in Hcrc.
  exists buf, bsize, trailer.
  assert (Hfile : file = take (Z.to_nat eod) file ++ buf ++ bsize).
  { rewrite <- (take_drop (Z.to_nat eod) file) at 1. f_equal.
    rewrite <- (take_drop (Z.to_nat (Uint64 bsize)) (drop (Z.to_nat eod) file)) at 1.
    rewrite <- Hbuf. f_equal. rewrite drop_drop.
    replace (Z.to_nat eod + Z.to_nat (Uint64 bsize))%nat
      with (Z.to_nat (Z.of_nat (length file) - 8)) by (unfold eod; lia).
    etransitivity; [|symmetry; exact Hb].
    symmetry. apply take_ge. rewrite length_drop. lia. }
  repeat split; auto; lia.
Qed.

Lemma decodeSnapshot_sound_witness :
  exists buf bsize trailer,
    DiskExamples.example_file
      = r_bytes (Disk.Data DiskExamples.decoded) ++ buf ++ bsize
    /\ length bsize = 8%nat
    /\ Uint64 bsize = Z.of_nat (length buf)
    /\ Examples.example_Unmarshal buf = Ok trailer
    /\ Disk.tr_CRC trailer = CRC64.Sum (r_bytes (Disk.Data DiskExamples.decoded))
    /\ Disk.Raw DiskExamples.decoded = Disk.tr_Snapshot trailer
    /\ Disk.Members DiskExamples.decoded = Disk.tr_Members trailer
    /\ r_err (Disk.Data DiskExamples.decoded) = None.
Proof.
  apply (decodeSnapshot_sound Examples.example_Unmarshal Disk.no_read_faults
           DiskExamples.encoded_fs Examples.example_path
           DiskExamples.example_file DiskExamples.decoded).
  - apply lookup_singleton_eq.
  - vm_compute. reflexivity.
  - vm_compute. reflexivity.
Defined.



(** X20. [encodeSnapshot] touches no file but the one at its path; when
    the file cannot be created the files are as before; and when it
    returns nil the source of the payload was read to its end, the
    trailer marshalled, and the file holds payload, trailer and the
    big-endian length of the trailer. *)
Theorem encodeSnapshot_frame (Marshal : Disk.SnapshotTrailer -> res (list byte))
    (wf : Disk.WriteFaults) (fs : gmap string (list byte)) (path : string)
    (s : Disk.Snapshot) (r : res unit) (fs' : gmap string (list byte)) :
  Disk.encodeSnapshot Marshal wf fs path s = (r, fs') ->
  (forall p, p <> path -> fs' !! p = fs !! p)
  /\ (forall e, Disk.wf_create wf = Some e -> r = Err e /\ fs' = fs)
  /\ (r = Ok tt ->
      r_err (Disk.Data s) = None
      /\ exists buf, Marshal (Disk.trailer_of s) = Ok buf
           /\ fs' !! path = Some (r_bytes (Disk.Data s) ++ buf
                                  ++ PutUint64 (wrap64 (Z.of_nat (length buf))))).
Proof.
  unfold Disk.encodeSnapshot. fold (Disk.trailer_of s). intros H.
  destruct (Disk.wf_create wf) as [e0|].
  { inversion H; subst. repeat split; auto; try congruence; discriminate. }
  assert (Hframe : forall content p, p <> path ->
             <[path := content]> fs !! p = fs !! p)
    by (intros; now apply lookup_insert_ne).
  destruct (Disk.wf_copy wf) as [e1|]; simpl in H.
  { inversion H; subst. repeat split; auto; discriminate. }
  destruct (r_err (Disk.Data s)) as [e2|] eqn:Hsrc.
  { inversion H; subst. repeat split; auto; discriminate. }
  destruct (Marshal (Disk.trailer_of s)) as [buf|e3|] eqn:Hm;
    try (inversion H; subst; repeat split; auto; discriminate).
  destruct (Disk.wf_trailer wf);
    [inversion H; subst; repeat split; auto; discriminate|].
  destruct (Disk.wf_size wf);
    [inversion H; subst; repeat split; auto; discriminate|].
  destruct (Disk.wf_flush wf);
    [inversion H; subst; repeat split; auto; discriminate|].
  destruct (Disk.wf_fsync wf);
    inversion H; subst; repeat split; auto; try discriminate.
  exists buf. split; [reflexivity|]. apply lookup_insert_eq.
Qed.

Lemma encodeSnapshot_frame_witness :
  (forall p, p <> Examples.example_path ->
     snd (Disk.encodeSnapshot Examples.example_Marshal Disk.no_write_faults
            DiskExamples.short_fs Examples.example_path Examples.example_snapshot) !! p
     = DiskExamples.short_fs !! p)
  /\ (forall e, Disk.wf_create Disk.no_write_faults = Some e ->
      Ok tt = Err e
      /\ snd (Disk.encodeSnapshot Examples.example_Marshal Disk.no_write_faults
                DiskExamples.short_fs Examples.example_path Examples.example_snapshot)
         = DiskExamples.short_fs)
  /\ (Ok tt = Ok tt ->
      r_err (Disk.Data Examples.example_snapshot) = None
      /\ exists buf,
           Examples.example_Marshal (Disk.trailer_of Examples.example_snapshot) = Ok buf
           /\ snd (Disk.encodeSnapshot Examples.example_Marshal Disk.no_write_faults
                     DiskExamples.short_fs Examples.example_path
                     Examples.example_snapshot) !! Examples.example_path
              = Some (r_bytes (Disk.Data Examples.example_snapshot) ++ buf
                      ++ PutUint64 (wrap64 (Z.of_nat (length buf))))).
Proof.
  apply (encodeSnapshot_frame Examples.example_Marshal Disk.no_write_faults
           DiskExamples.short_fs Examples.example_path Examples.example_snapshot
           (Ok tt)).
  reflexivity.
Defined.

(** ** Snapshot names and the newest available snapshot *)

Lemma snapshotName_length (term index : Z) :
  String.length (DiskNames.snapshotName term index) = 38%nat.
Proof. reflexivity. Qed.

Lemma nth_error_lookup {A : Type} (l : list A) (i : nat) :
  nth_error l i = l !! i.
Proof.
  revert i. induction l as [|x l IH]; intros [|i]; simpl; auto.
Qed.

Lemma newest_target_spec (snaps : list DiskNames.walSnapshot) (files : list string)
    (n : nat) :
  (n <= length snaps)%nat ->
  (DiskNames.newest_target n snaps files = EmptyString
   /\ Forall (fun sp => DiskNames.in_names
                          (DiskNames.snapshotName (DiskNames.ws_Term sp)
                                                  (DiskNames.ws_Index sp)) files
                        = false) (take n snaps))
  \/ (exists pre sp post,
        take n snaps = pre ++ sp :: post
        /\ DiskNames.in_names
             (DiskNames.snapshotName (DiskNames.ws_Term sp) (DiskNames.ws_Index sp))
             files = true
        /\ Forall (fun sp => DiskNames.in_names
                               (DiskNames.snapshotName (DiskNames.ws_Term sp)
                                                       (DiskNames.ws_Index sp)) files
                             = false) post
        /\ DiskNames.newest_target n snaps files
           = DiskNames.snapshotName (DiskNames.ws_Term sp) (DiskNames.ws_Index sp)).
Proof.
  induction n as [|i IH]; intros Hn.
  - left. simpl. rewrite take_0. split; [reflexivity | constructor].
  - cbn [DiskNames.newest_target]. rewrite nth_error_lookup.
    destruct (snaps !! i) as [sp|] eqn:Hl;
      [|apply lookup_ge_None in Hl; lia].
    rewrite (take_S_r _ _ _ Hl).
    destruct (DiskNames.in_names _ files) eqn:Hin.
    + right. exists (take i snaps), sp, []. rewrite Hin. repeat split; auto.
    + destruct (IH ltac:(lia)) as [[Hnone Hall]|(pre & sp' & post & Ht & Hin' & Hpost & Hres)].
      * left. split; [exact Hnone|]. apply Forall_app. split; [exact Hall|].
        constructor; [exact Hin | constructor].
      * right. exists pre, sp', (post ++ [sp]). rewrite Ht, <- app_assoc.
        repeat split; auto.
        apply Forall_app. split; [exact Hpost|]. constructor; [exact Hin | constructor].
Qed.

(** X21. [decodeNewestAvailableSnapshot] returns ErrNoSnapshot exactly
    when no marker has its file among the listed names; otherwise it
    decodes the file of the last marker, in the order of the WAL, whose
    file is listed, and returns that result, error or not: when that
    file does not decode no older snapshot is tried. *)
Theorem decodeNewestAvailableSnapshot_last_listed
    (Unmarshal : list byte -> res Disk.SnapshotTrailer)
    (Join : string -> string -> string) (rf : Disk.ReadFaults)
    (fs : gmap string (list byte)) (dir : string) (names : list string)
    (snaps : list DiskNames.walSnapshot) :
  let name sp := DiskNames.snapshotName (DiskNames.ws_Term sp) (DiskNames.ws_Index sp) in
  let result := DiskNames.decodeNewestAvailableSnapshot Unmarshal Join rf fs dir
                  (Ok names) snaps in
  (Forall (fun sp => DiskNames.in_names (name sp) names = false) snaps
   /\ result = Err ErrNoSnapshot)
  \/ (exists pre sp post,
        snaps = pre ++ sp :: post
        /\ DiskNames.in_names (name sp) names = true
        /\ Forall (fun sp => DiskNames.in_names (name sp) names = false) post
        /\ result = Disk.decodeSnapshot Unmarshal rf fs (Join dir (name sp))).
Proof.
  intros name result. subst result. unfold DiskNames.decodeNewestAvailableSnapshot.
  destruct (newest_target_spec snaps names (length snaps) (le_n _))
    as [[Hnone Hall]|(pre & sp & post & Ht & Hin & Hpost & Hres)];
    rewrite firstn_all in *.
  - left. rewrite Hnone. split; [exact Hall | reflexivity].
  - right. exists pre, sp, post. rewrite Hres, snapshotName_length.
    repeat split; auto.
Qed.

Lemma hex_value_digit (n : Z) :
  0 <= n < 16 -> DiskNames.hex_value (DiskNames.hex_digit n) = n.
Proof.
  intros Hn.
  assert (Hall : forallb (fun k => DiskNames.hex_value (DiskNames.hex_digit k) =? k)
                         (seqZ 0 16) = true) by (vm_compute; reflexivity).
  rewrite forallb_forall in Hall.
  apply Z.eqb_eq, Hall, list_elem_of_In, elem_of_seqZ. lia.
Qed.

Lemma parse_hex16 (z : Z) :
  0 <= z < 2 ^ 64 -> DiskNames.parse_hex (DiskNames.hex16 z) = z.
Proof.
  intros Hz. unfold DiskNames.parse_hex, DiskNames.hex16.
  rewrite String.list_ascii_of_string_of_list_ascii.
  cbn [map fold_left].
  assert (Hland : forall k, 0 <= k ->
             Z.land (Z.shiftr z k) 15 = (z / 2 ^ k) mod 16).
  { intros k Hk. change 15 with (Z.ones 4). rewrite Z.land_ones by lia.
    now rewrite Z.shiftr_div_pow2 by lia. }
  rewrite !Hland by lia.
  rewrite !hex_value_digit by (apply Z.mod_pos_bound; lia).
  cbn [Z.mul Pos.mul Z.pow Z.pow_pos Pos.iter].
  Z.div_mod_to_equations. lia.
Qed.

(** X22. The name of a snapshot file determines its term and index: two
    snapshots (terms and indices being uint64) have the same file name
    only if they have the same term and the same index; every name is 38
    characters long. *)
Theorem snapshotName_injective (term index term' index' : Z) :
  0 <= term < 2 ^ 64 -> 0 <= index < 2 ^ 64 ->
  0 <= term' < 2 ^ 64 -> 0 <= index' < 2 ^ 64 ->
  DiskNames.snapshotName term index = DiskNames.snapshotName term' index' ->
  term = term' /\ index = index'
  /\ String.length (DiskNames.snapshotName term index) = 38%nat.
Proof.
  intros Ht Hi Ht' Hi' H.
  assert (H1 : String.substring 0 16 (DiskNames.snapshotName term index)
               = DiskNames.hex16 term) by reflexivity.
  assert (H2 : String.substring 17 16 (DiskNames.snapshotName term index)
               = DiskNames.hex16 index) by reflexivity.
  assert (H1' : String.substring 0 16 (DiskNames.snapshotName term' index')
                = DiskNames.hex16 term') by reflexivity.
  assert (H2' : String.substring 17 16 (DiskNames.snapshotName term' index')
                = DiskNames.hex16 index') by reflexivity.
  rewrite H in H1, H2. rewrite H1 in H1'. rewrite H2 in H2'.
  apply (f_equal DiskNames.parse_hex) in H1', H2'.
  rewrite !parse_hex16 in H1', H2' by assumption.
  repeat split; auto.
Qed.

Lemma snapshotName_injective_witness :
  2 = 2 /\ 7 = 7
  /\ String.length (DiskNames.snapshotName 2 7) = 38%nat.
Proof.
  apply (snapshotName_injective 2 7 2 7); try lia. reflexivity.
Defined.

Example snapshotName_example :
  DiskNames.snapshotName 2 7 = Examples.example_path
  /\ DiskNames.snapshotName 255 (2 ^ 64 - 1)
     = "00000000000000ff-ffffffffffffffff.snap"%string.
Proof. split; vm_compute; reflexivity. Qed.

(** ** Start options *)

Lemma option_apply_operators (o : StartOptions.StartOption) :
  forall c,
    StartOptions.operators (StartOptions.option_apply o c)
    = StartOptions.operators c
      ++ match StartOptions.operator_of o with Some op => [op] | None => [] end.
Proof.
  revert o. fix IH 1. intros o c.
  destruct o as [a t|a t| | |p| |urls|a|opts]; cbn [StartOptions.option_apply
    StartOptions.operator_of StartOptions.appendOperator StartOptions.operators];
    try reflexivity.
  - now rewrite app_nil_r.
  - do 3 f_equal.
    change (omap StartOptions.operator_of opts)
      with (StartOptions.operators StartOptions.new_startConfig
            ++ omap StartOptions.operator_of opts).
    generalize StartOptions.new_startConfig.
    induction opts as [|o opts IHl]; intros nc; cbn [fold_left omap].
    + now rewrite app_nil_r.
    + rewrite IHl, (IH o). rewrite <- app_assoc. f_equal.
      simpl. now destruct (StartOptions.operator_of o).
Qed.

Lemma apply_operators (opts : list StartOptions.StartOption) :
  forall c,
    StartOptions.operators (StartOptions.apply c opts)
    = StartOptions.operators c ++ omap StartOptions.operator_of opts.
Proof.
  unfold StartOptions.apply.
  induction opts as [|o opts IH]; intros c; cbn [fold_left omap].
  - now rewrite app_nil_r.
  - rewrite IH, option_apply_operators, <- app_assoc. f_equal.
    simpl. now destruct (StartOptions.operator_of o).
Qed.

Lemma option_apply_addr (o : StartOptions.StartOption) (c : StartOptions.startConfig) :
  StartOptions.addr (StartOptions.option_apply o c)
  = match o with
    | StartOptions.WithAddress a => a
    | _ => StartOptions.addr c
    end.
Proof. destruct o; reflexivity. Qed.

Lemma apply_addr (opts : list StartOptions.StartOption) :
  forall c,
    (Forall (fun o => forall a', o <> StartOptions.WithAddress a') opts
     /\ StartOptions.addr (StartOptions.apply c opts) = StartOptions.addr c)
    \/ (exists pre post,
          opts = pre ++ StartOptions.WithAddress
                          (StartOptions.addr (StartOptions.apply c opts)) :: post
          /\ Forall (fun o => forall a', o <> StartOptions.WithAddress a') post).
Proof.
  unfold StartOptions.apply.
  induction opts as [|o opts IH]; intros c; cbn [fold_left].
  - left. split; [constructor | reflexivity].
  - destruct (IH (StartOptions.option_apply o c)) as [[Hall Ha]|(pre & post & Hopts & Hpost)].
    + rewrite Ha, option_apply_addr.
      destruct o as [a t|a t| | |p| |urls|a|os];
        try (left; split; [constructor; [discriminate | exact Hall] | reflexivity]).
      right. exists [], opts. split; [reflexivity | exact Hall].
    + right. exists (o :: pre), post. split; [|exact Hpost].
      simpl. f_equal. exact Hopts.
Qed.

(** X23. Start hands the daemon's [invoke] first the operators of the
    start options, in the order of the options, and then its own three:
    setup with the address, stateSetup and removedMembers.  The address is
    that of the last WithAddress among the options, or empty when there is
    none; a WithAddress inside WithFallback sets no address and adds
    nothing to the fallback operator. *)
Theorem Start_operators_in_order (opts : list StartOptions.StartOption) :
  exists a,
    StartOptions.Start_operators opts
    = omap StartOptions.operator_of opts
      ++ [StartOptions.setup a; StartOptions.stateSetup; StartOptions.removedMembers]
    /\ ((Forall (fun o => forall a', o <> StartOptions.WithAddress a') opts
         /\ a = EmptyString)
        \/ (exists pre post,
              opts = pre ++ StartOptions.WithAddress a :: post
              /\ Forall (fun o => forall a', o <> StartOptions.WithAddress a') post)).
Proof.
  exists (StartOptions.addr (StartOptions.apply StartOptions.new_startConfig opts)).
  split.
  - unfold StartOptions.Start_operators, StartOptions.daemon_Start_operators.
    cbv zeta. now rewrite apply_operators.
  - exact (apply_addr opts StartOptions.new_startConfig).
Qed.

Example Start_operators_example :
  StartOptions.Start_operators
    [ StartOptions.WithAddress ":1";
      StartOptions.WithFallback
        [StartOptions.WithRestart; StartOptions.WithAddress ":9";
         StartOptions.WithInitCluster];
      StartOptions.WithAddress ":2";
      StartOptions.WithMembers ["1=:1"; "2=:2"] ]%string
  = [ StartOptions.Fallback [StartOptions.Restart; StartOptions.InitCluster];
      StartOptions.Members ["1=:1"; "2=:2"];
      StartOptions.setup ":2"; StartOptions.stateSetup;
      StartOptions.removedMembers ]%string.
Proof. reflexivity. Qed.

(** ** The snapshotter's writer *)

Lemma peekSnapshot_missing (Unmarshal : list byte -> res Disk.SnapshotTrailer)
    (rf : Disk.ReadFaults) (fs : gmap string (list byte)) (name : string) :
  fs !! name = None ->
  DiskNames.peekSnapshot Unmarshal rf fs name = Err ErrNotExist.
Proof.
  intros H. unfold DiskNames.peekSnapshot, Disk.decodeSnapshot. now rewrite H.
Qed.

(** X24. The [peek] of Writer decodes the file called [name] as it stands,
    not the file Writer created at Join(snapdir, name).  When the two
    differ and no file can be opened under [name], peek answers ErrNotExist
    whatever was written through the writer, and removes the file just
    written (unless the removal itself fails); no other file changes. *)
Theorem Writer_peek_reads_name
    (Unmarshal : list byte -> res Disk.SnapshotTrailer)
    (Join : string -> string -> string) (snapdir : string)
    (rf : Disk.ReadFaults) (remove_err : option error)
    (fs fs1 : gmap string (list byte)) (name path : string) (data : list byte) :
  Snapshoter.Writer Join snapdir None fs name = (Ok path, fs1) ->
  path <> name ->
  fs !! name = None ->
  exists fs2,
    Snapshoter.peek Unmarshal Join snapdir rf remove_err
      (Snapshoter.written fs1 path data) name = (Err ErrNotExist, fs2)
    /\ (remove_err = None -> fs2 !! path = None)
    /\ (remove_err <> None -> fs2 !! path = Some data)
    /\ (forall p, p <> path -> fs2 !! p = fs !! p).
Proof.
  intros HW Hne Hname. unfold Snapshoter.Writer in HW. cbv zeta in HW.
  injection HW as Hpath Hfs1. subst fs1.
  unfold Snapshoter.peek, Snapshoter.written. cbv zeta. rewrite Hpath.
  rewrite peekSnapshot_missing.
  2:{ rewrite !lookup_insert_ne by exact Hne. exact Hname. }
  eexists. split; [reflexivity|].
  destruct remove_err as [e|].
  - split; [discriminate|]. split.
    + intros _. now rewrite lookup_insert_eq.
    + intros p Hp. now rewrite !lookup_insert_ne by congruence.
  - split; [intros _; apply lookup_delete_eq|]. split; [congruence|].
    intros p Hp.
    rewrite lookup_delete_ne by congruence.
    now rewrite !lookup_insert_ne by congruence.
Qed.

Lemma Writer_peek_reads_name_witness :
  exists fs2,
    Snapshoter.peek Examples.example_Unmarshal
      (fun d n => (d ++ "/" ++ n)%string) "snap"%string
      Disk.no_read_faults None
      (Snapshoter.written (<["snap/0000000000000002-0000000000000007.snap"%string := []]> ∅)
         "snap/0000000000000002-0000000000000007.snap"%string Examples.example_buf)
      Examples.example_path = (Err ErrNotExist, fs2)
    /\ (@None error = None
        -> fs2 !! "snap/0000000000000002-0000000000000007.snap"%string = None)
    /\ (@None error <> None
        -> fs2 !! "snap/0000000000000002-0000000000000007.snap"%string
           = Some Examples.example_buf)
    /\ (forall p, p <> "snap/0000000000000002-0000000000000007.snap"%string
                  -> fs2 !! p = (∅ : gmap string (list byte)) !! p).
Proof.
  apply (Writer_peek_reads_name Examples.example_Unmarshal
           (fun d n => (d ++ "/" ++ n)%string) "snap"%string
           Disk.no_read_faults None ∅ _ Examples.example_path
           "snap/0000000000000002-0000000000000007.snap"%string
           Examples.example_buf).
  - reflexivity.
  - discriminate.
  - apply lookup_empty.
Defined.
